(** * AbletonOSC: the OSC dispatch server, [abletonosc/osc_server.py]

    A shallow embedding of the class [OSCServer] and the properties of its
    drain-and-dispatch loop.  The Python object, its UDP socket, the logger
    and the state the handlers act on are one record, [World]; the methods
    are computations in a state-and-exception monad over it, so that a raised
    exception keeps the mutations made before it, as in Python.

    The collaborators that are not part of the file are interfaces:
    - the OSC codec ([OscMessage], [OscMessageBuilder]) is the class [Codec];
    - the operating system's socket layer and [errno] values are the class
      [Sockets];
    - the handlers are functions over an application state [App]. *)

From Stdlib Require Import ZArith.
From Stdlib.Strings Require Import Byte Ascii String.
From stdpp Require Import base option list strings gmap.

Local Open Scope Z_scope.

(** ** Values, endpoints, messages *)

Definition bytes := list byte.

(** [Tuple[str, int]]: a host and a port. *)
Definition endpoint : Type := string * Z.

(** The dynamically typed OSC parameters.  [VObj] stands for any other
    Python object, by its [repr]. *)
Inductive value :=
| VInt (n : Z)
| VStr (s : string)
| VBlob (b : bytes)
| VBool (b : bool)
| VObj (repr : string).

(** The decoded message: [message.address] and [message.params]. *)
Record message := mkMessage {
  address : string;
  params : list value
}.

(** ** Exceptions

    The classes the [except] clauses of the file tell apart.  [socket.error]
    is [OSError] and carries an [errno]; [Exception_] is any other class
    deriving from [Exception] (ValueError, TypeError, OverflowError, ...);
    [BaseException_] is a class deriving from [BaseException] only
    (KeyboardInterrupt, SystemExit). *)
Inductive exn :=
| ParseError
| BuildError
| socket_error (errno : Z)
| Exception_ (cls : string)
| BaseException_ (cls : string).

Definition isinstance_ParseError (e : exn) : bool :=
  match e with ParseError => true | _ => false end.

Definition isinstance_BuildError (e : exn) : bool :=
  match e with BuildError => true | _ => false end.

Definition isinstance_socket_error (e : exn) : bool :=
  match e with socket_error _ => true | _ => false end.

Definition isinstance_Exception (e : exn) : bool :=
  match e with BaseException_ _ => false | _ => true end.

(** [e.errno] *)
Definition errno_of (e : exn) : option Z :=
  match e with socket_error n => Some n | _ => None end.

Inductive result (A : Type) :=
| Return (a : A)
| Raise (e : exn).
Arguments Return {A} a.
Arguments Raise {A} e.

(** ** Collaborators *)

(** The codec, [pythonosc.osc_message] and [pythonosc.osc_message_builder]:
    [OscMessage(data)], [OscMessageBuilder(address)], [add_arg], and
    [build], whose result is the datagram [msg.dgram]. *)
Class Codec := {
  OscMessage : bytes → result message;
  Builder : Type;
  OscMessageBuilder : string → Builder;
  add_arg : Builder → value → result Builder;
  build : Builder → result bytes
}.

(** The socket layer: the two [errno] values the loop compares with, and
    which [bind] and [sendto] calls the operating system refuses, with the
    exception raised. *)
Class Sockets := {
  EAGAIN : Z;
  EWOULDBLOCK : Z;
  bind_fails : endpoint → option exn;
  sendto_fails : bytes → endpoint → option exn
}.

(** [errno.EBADF], what a closed socket answers; 9 on every platform. *)
Definition EBADF : Z := 9.

(** What one [recvfrom] call finds: a datagram with its source, or an
    error condition pending on the socket. *)
Inductive recv_event :=
| Datagram (data : bytes) (remote_addr : endpoint)
| RecvError (errno : Z).

(** The lines written through [self.logger.info]; the exception stands for
    the text of [traceback.format_exc()]. *)
Inductive log_entry :=
| LogStarting (local_addr : endpoint) (response_port : Z)
| LogBuildError (e : exn)
| LogUnknownAddress (address : string)
| LogParseError (e : exn)
| LogSocketError (e : exn)
| LogErrorHandlingMessage (e : exn).

Section State.

(** The state the handlers act on: everything of the embedding application
    a callback may read or change.  A callback gets the decoded params and
    returns [None] or the params of a reply, or raises.  It holds no
    reference to the server: the socket and the attributes of [self] are
    out of its reach. *)
Context {App : Type}.

Definition handler : Type := list value → App → result (option (list value)) * App.

(** The object and its surroundings.  [_local_addr], [_remote_addr],
    [_response_port] and [_callbacks] are the attributes of [self];
    [rx], [tx] and [closed] are the state of [self._socket]: the datagrams
    and errors queued for [recvfrom], the datagrams handed to [sendto] so
    far with their destinations, and whether [close] was called; [logged]
    is the output of [self.logger]; [app_state] is the application; [build_calls] counts the calls of
    [msg_builder.build()]. *)
Record World := mkWorld {
  _local_addr : endpoint;
  _remote_addr : endpoint;
  _response_port : Z;
  _callbacks : gmap string handler;
  rx : list recv_event;
  tx : list (bytes * endpoint);
  closed : bool;
  logged : list log_entry;
  build_calls : nat;
  app_state : App
}.

Definition set_callbacks (c : gmap string handler) (w : World) : World :=
  mkWorld (_local_addr w) (_remote_addr w) (_response_port w) c
          (rx w) (tx w) (closed w) (logged w) (build_calls w) (app_state w).

Definition set_rx (q : list recv_event) (w : World) : World :=
  mkWorld (_local_addr w) (_remote_addr w) (_response_port w) (_callbacks w)
          q (tx w) (closed w) (logged w) (build_calls w) (app_state w).

Definition set_tx (t : list (bytes * endpoint)) (w : World) : World :=
  mkWorld (_local_addr w) (_remote_addr w) (_response_port w) (_callbacks w)
          (rx w) t (closed w) (logged w) (build_calls w) (app_state w).

Definition set_closed (b : bool) (w : World) : World :=
  mkWorld (_local_addr w) (_remote_addr w) (_response_port w) (_callbacks w)
          (rx w) (tx w) b (logged w) (build_calls w) (app_state w).

Definition set_log (l : list log_entry) (w : World) : World :=
  mkWorld (_local_addr w) (_remote_addr w) (_response_port w) (_callbacks w)
          (rx w) (tx w) (closed w) l (build_calls w) (app_state w).

Definition set_build_calls (n : nat) (w : World) : World :=
  mkWorld (_local_addr w) (_remote_addr w) (_response_port w) (_callbacks w)
          (rx w) (tx w) (closed w) (logged w) n (app_state w).

Definition set_app (a : App) (w : World) : World :=
  mkWorld (_local_addr w) (_remote_addr w) (_response_port w) (_callbacks w)
          (rx w) (tx w) (closed w) (logged w) (build_calls w) a.

(** ** The monad of the methods *)

Definition Py (A : Type) : Type := World → result A * World.

Definition ret {A} (a : A) : Py A := fun w => (Return a, w).

Definition raise {A} (e : exn) : Py A := fun w => (Raise e, w).

Definition bind {A B} (m : Py A) (k : A → Py B) : Py B :=
  fun w =>
    match m w with
    | (Return a, w') => k a w'
    | (Raise e, w') => (Raise e, w')
    end.

(** A value or an exception coming from a stateless collaborator. *)
Definition lift {A} (r : result A) : Py A := fun w => (r, w).

(** [try: body except C1: h1 except C2: h2 ...]: the first clause whose
    class the exception is an instance of handles it; with none, it
    propagates. *)
Fixpoint first_clause {A} (e : exn) (clauses : list ((exn → bool) * (exn → Py A)))
  : option (Py A) :=
  match clauses with
  | [] => None
  | (cls, h) :: rest => if cls e then Some (h e) else first_clause e rest
  end.

Definition try_except {A} (body : Py A) (clauses : list ((exn → bool) * (exn → Py A)))
  : Py A :=
  fun w =>
    match body w with
    | (Return a, w') => (Return a, w')
    | (Raise e, w') =>
        match first_clause e clauses with
        | Some h => h w'
        | None => (Raise e, w')
        end
    end.

End State.

Arguments World : clear implicits.
Arguments handler : clear implicits.
Arguments Py : clear implicits.

Declare Scope py_scope.
Delimit Scope py_scope with py.
Notation "x <- c1 ;; c2" := (bind c1 (fun x => c2))
  (at level 100, c1 at next level, right associativity) : py_scope.
Notation "c1 ;; c2" := (bind c1 (fun _ => c2))
  (at level 100, c2 at level 200, right associativity) : py_scope.
Local Open Scope py_scope.

(** ** The class [OSCServer] *)

Section OSCServer.

Context {App : Type} `{Codec} `{Sockets}.

(** [self.logger.info(...)] *)
Definition logger_info (l : log_entry) : Py App unit :=
  fun w => (Return tt, set_log (logged w ++ [l]) w).

(** Reading an attribute of [self]. *)
Definition gets {A} (f : World App → A) : Py App A :=
  fun w => (Return (f w), w).

(** *** The socket

    [self._socket] is a non-blocking UDP socket.  [recvfrom(65536)] takes
    the next datagram (a UDP payload is shorter than the buffer, so it comes
    whole) or raises the pending error; with nothing queued it raises the
    would-block error.  A closed socket answers [EBADF]. *)
Definition recvfrom : Py App (bytes * endpoint) :=
  fun w =>
    if closed w then (Raise (socket_error EBADF), w)
    else match rx w with
         | [] => (Raise (socket_error EWOULDBLOCK), w)
         | Datagram data remote_addr :: q => (Return (data, remote_addr), set_rx q w)
         | RecvError errno :: q => (Raise (socket_error errno), set_rx q w)
         end.

Definition sendto (dgram : bytes) (addr : endpoint) : Py App unit :=
  fun w =>
    if closed w then (Raise (socket_error EBADF), w)
    else match sendto_fails dgram addr with
         | Some e => (Raise e, w)
         | None => (Return tt, set_tx (tx w ++ [(dgram, addr)]) w)
         end.

Definition close : Py App unit :=
  fun w => (Return tt, set_closed true w).

(** What the network does between two calls: it queues events. *)
Definition deliver (evs : list recv_event) (w : World App) : World App :=
  set_rx (rx w ++ evs) w.

(** *** [__init__]

    The socket is created, made non-blocking and bound; a [bind] that fails
    raises out of the constructor and there is no object.  [app0] is the
    state of the application around the new server. *)
Definition __init__ (local_addr remote_addr : endpoint) (app0 : App)
  : result (World App) :=
  let response_port := snd remote_addr in
  match bind_fails local_addr with
  | Some e => Raise e
  | None =>
      Return {| _local_addr := local_addr;
                _remote_addr := remote_addr;
                _response_port := response_port;
                _callbacks := ∅;
                rx := []; tx := []; closed := false;
                logged := [LogStarting local_addr response_port];
                build_calls := 0;
                app_state := app0 |}
  end.

(** *** [add_handler], [clear_handlers] *)

Definition add_handler (address : string) (handler : handler App) : Py App unit :=
  fun w => (Return tt, set_callbacks (<[address := handler]> (_callbacks w)) w).

Definition clear_handlers : Py App unit :=
  fun w => (Return tt, set_callbacks ∅ w).

(** *** [send] *)

(** [for param in params: msg_builder.add_arg(param)] *)
Fixpoint add_args (msg_builder : Builder) (params : list value) : result Builder :=
  match params with
  | [] => Return msg_builder
  | param :: rest =>
      match add_arg msg_builder param with
      | Return b => add_args b rest
      | Raise e => Raise e
      end
  end.

(** [msg_builder.build()], counted. *)
Definition call_build (msg_builder : Builder) : Py App bytes :=
  fun w => (build msg_builder, set_build_calls (S (build_calls w)) w).

Definition send (address : string) (params : list value)
    (remote_addr : option endpoint) : Py App unit :=
  msg_builder <- lift (add_args (OscMessageBuilder address) params) ;;
  try_except
    (dgram <- call_build msg_builder ;;
     remote_addr <- match remote_addr with
                    | None => gets _remote_addr
                    | Some a => ret a
                    end ;;
     sendto dgram remote_addr)
    [(isinstance_BuildError, fun e => logger_info (LogBuildError e))].

(** *** [process] *)

(** [callback(message.params)] *)
Definition call (callback : handler App) (ps : list value)
  : Py App (option (list value)) :=
  fun w => let '(r, a) := callback ps (app_state w) in (r, set_app a w).

(** The inner [try] of the loop, for one received datagram. *)
Definition dispatch (data : bytes) (remote_addr : endpoint) : Py App unit :=
  try_except
    (message <- lift (OscMessage data) ;;
     callbacks <- gets _callbacks ;;
     match callbacks !! address message with
     | Some callback =>
         rv <- call callback (params message) ;;
         match rv with
         | Some rv =>
             let remote_hostname := fst remote_addr in
             response_port <- gets _response_port ;;
             let response_addr := (remote_hostname, response_port) in
             send (address message) rv (Some response_addr)
         | None => ret tt
         end
     | None => logger_info (LogUnknownAddress (address message))
     end)
    [(isinstance_ParseError, fun e => logger_info (LogParseError e))].

(** The body of [while True]. *)
Definition loop_body : Py App unit :=
  r <- recvfrom ;;
  dispatch (fst r) (snd r).

(** [while True: body], which no [break] leaves: [gas + 1] rounds of it.
    The loop ends by an exception of the body; [while_True_raises] below
    shows that the rounds [process] allows are enough for that. *)
Fixpoint while_True (gas : nat) (body : Py App unit) : Py App unit :=
  match gas with
  | O => body
  | S gas' => body ;; while_True gas' body
  end.

Definition would_block (e : exn) : bool :=
  match errno_of e with
  | Some n => (n =? EAGAIN) || (n =? EWOULDBLOCK)
  | None => false
  end.

(** The drain.  The loop gets as many rounds as there are events queued,
    and one more: every round that returns has taken an event off the
    queue, so the last of them finds it empty and raises.  More rounds
    give the same result ([process_unfold]). *)
Definition process : Py App unit :=
  fun w =>
    try_except
      (while_True (length (rx w)) loop_body)
      [(isinstance_socket_error,
        fun e => if would_block e then ret tt
                 else logger_info (LogSocketError e));
       (isinstance_Exception,
        fun e => logger_info (LogErrorHandlingMessage e))]
      w.

(** *** [shutdown] *)

Definition shutdown : Py App unit := close.

End OSCServer.

(** ** Notions the properties are stated with *)

Section Notions.

Context {App : Type} `{Codec} `{Sockets}.

(** Running [m] does not change the part [f] of the world, whether it
    returns or raises. *)
Definition preserves {X A} (f : World App → X) (m : Py App A) : Prop :=
  ∀ w, f (snd (m w)) = f w.

(** What was fixed at construction. *)
Definition config (w : World App) : endpoint * endpoint * Z :=
  (_local_addr w, _remote_addr w, _response_port w).

(** The two outer [except] clauses of [process], as one function of the
    exception that ended the loop. *)
Definition process_except (e : exn) : Py App unit :=
  if isinstance_socket_error e then
    if would_block e then ret tt else logger_info (LogSocketError e)
  else if isinstance_Exception e then logger_info (LogErrorHandlingMessage e)
  else raise e.

(** [drains w w1]: the loop of [process], entered in [w], is about to
    start a round in [w1], every round before having returned. *)
Inductive drains : World App → World App → Prop :=
| drains_here w : drains w w
| drains_round w w1 w2 :
    loop_body w = (Return tt, w1) → drains w1 w2 → drains w w2.

(** The world with one more line in the log. *)
Definition logging (l : log_entry) (w : World App) : World App :=
  set_log (logged w ++ [l]) w.

(** The world a round starts from once [recvfrom] has taken the datagram
    in front of the queue. *)
Definition received (rest : list recv_event) (w : World App) : World App :=
  set_rx rest w.

(** Where [send] sends: [remote_addr], or the default when it is [None]. *)
Definition destination (remote_addr : option endpoint) (w : World App) : endpoint :=
  match remote_addr with Some a => a | None => _remote_addr w end.

(** The [except ParseError] clause of the inner [try]. *)
Definition except_ParseError : list ((exn → bool) * (exn → Py App unit)) :=
  [(isinstance_ParseError, fun e => logger_info (LogParseError e))].

(** What [send] adds to the datagrams sent, when called on an open
    socket: the built datagram to [dest], or nothing when [add_arg] or
    [build] raises or the socket refuses the datagram. *)
Definition transmitted (address : string) (params : list value) (dest : endpoint)
  : list (bytes * endpoint) :=
  match add_args (OscMessageBuilder address) params with
  | Return b =>
      match build b with
      | Return dgram =>
          match sendto_fails dgram dest with
          | None => [(dgram, dest)]
          | Some _ => []
          end
      | Raise _ => []
      end
  | Raise _ => []
  end.

(** What a caller, or the network, does to a server: one of the five
    methods, or the arrival of events on the socket. *)
Inductive action :=
| Add_handler (address : string) (h : handler App)
| Clear_handlers
| Send (address : string) (params : list value) (remote_addr : option endpoint)
| Process
| Shutdown
| Deliver (evs : list recv_event).

(** The world after an action; what [send] or [process] raises goes to
    the caller, who carries on with the world as the exception left it. *)
Definition perform (a : action) (w : World App) : World App :=
  match a with
  | Add_handler address h => snd (add_handler address h w)
  | Clear_handlers => snd (clear_handlers w)
  | Send address params remote_addr => snd (send address params remote_addr w)
  | Process => snd (process w)
  | Shutdown => snd (shutdown w)
  | Deliver evs => deliver evs w
  end.

(** The world after a sequence of actions, first to last. *)
Definition history (acts : list action) (w : World App) : World App :=
  fold_left (fun w a => perform a w) acts w.

(** A queued event that is a datagram the codec decodes, or rejects with
    [ParseError]. *)
Definition readable (ev : recv_event) : Prop :=
  match ev with
  | Datagram data _ =>
      match OscMessage data with
      | Return _ => True
      | Raise e => e = ParseError
      end
  | RecvError _ => False
  end.

(** Running [m] takes every world to one that [R] relates it to, whether
    [m] returns or raises. *)
Definition keeps {A} (R : World App → World App → Prop) (m : Py App A) : Prop :=
  ∀ w, R w (snd (m w)).

(** The result and the world of [r], with the registry replaced. *)
Definition with_callbacks (c : gmap string (handler App))
    (r : result unit * World App) : result unit * World App :=
  (fst r, set_callbacks c (snd r)).

End Notions.

Arguments action : clear implicits.

(** ** A test bench

    Concrete collaborators to run the server on: a codec for the fragment
    of OSC 1.0 with 32-bit integer, string, blob and boolean arguments, the
    socket layer of a Linux host, and some handlers.  As in the codec the
    server is used with, [add_arg] finds the type tag of the value and
    raises ValueError for a value of no supported type, and [build] raises
    [BuildError] for a value of a supported type that cannot be written
    (an integer beyond 32 bits, an empty blob).  The application state is
    the list of the handlers that ran, in order. *)

Module Bench.

(** An OSC string: the characters, a NUL, and NULs up to a multiple of 4. *)
Definition osc_string (s : string) : bytes :=
  let b := String.list_byte_of_string s in
  b ++ replicate (4 - (length b mod 4))%nat x00.

Definition byte_of_Z (z : Z) : byte :=
  default x00 (Byte.of_N (Z.to_N (z mod 256))).

(** Big-endian 32 bits, two's complement. *)
Definition osc_int32 (n : Z) : bytes :=
  [byte_of_Z (n / 16777216); byte_of_Z (n / 65536); byte_of_Z (n / 256); byte_of_Z n].

(** The type tag [add_arg] finds for a value; none for an object of no
    supported type. *)
Definition arg_type (v : value) : option ascii :=
  match v with
  | VInt _ => Some "i"%char
  | VStr _ => Some "s"%char
  | VBlob _ => Some "b"%char
  | VBool true => Some "T"%char
  | VBool false => Some "F"%char
  | VObj _ => None
  end.

(** A blob: its size on 32 bits, the bytes, and NULs up to a multiple
    of 4. *)
Definition osc_blob (b : bytes) : bytes :=
  osc_int32 (Z.of_nat (length b)) ++ b
  ++ replicate ((4 - (length b mod 4)) mod 4)%nat x00.

(** The tag and the bytes of an argument; none when it cannot be
    written. *)
Definition encode_arg (v : value) : option (ascii * bytes) :=
  match v with
  | VInt n =>
      if (-2147483648 <=? n) && (n <=? 2147483647)
      then Some ("i"%char, osc_int32 n) else None
  | VStr s => Some ("s"%char, osc_string s)
  | VBlob [] => None
  | VBlob b => Some ("b"%char, osc_blob b)
  | VBool true => Some ("T"%char, [])
  | VBool false => Some ("F"%char, [])
  | VObj _ => None
  end.

Fixpoint encode_args (args : list value) : option (list ascii * bytes) :=
  match args with
  | [] => Some ([], [])
  | v :: rest =>
      match encode_arg v, encode_args rest with
      | Some (t, b), Some (ts, bs) => Some (t :: ts, b ++ bs)
      | _, _ => None
      end
  end.

Definition encode (b : string * list value) : result bytes :=
  match encode_args (snd b) with
  | Some (tags, payload) =>
      Return (osc_string (fst b)
              ++ osc_string (String ","%char (string_of_list_ascii tags))
              ++ payload)
  | None => Raise BuildError
  end.

Fixpoint until_nul (data : bytes) : bytes :=
  match data with
  | [] => []
  | b :: rest => if Byte.eqb b x00 then [] else b :: until_nul rest
  end.

(** Reads an OSC string off the front of [data]. *)
Definition read_string (data : bytes) : option (string * bytes) :=
  let s := until_nul data in
  let n := (length s + (4 - length s mod 4))%nat in
  if (n <=? length data)%nat
  then Some (String.string_of_list_byte s, drop n data)
  else None.

Definition Z_of_byte (b : byte) : Z := Z.of_N (Byte.to_N b).

Definition read_int32 (data : bytes) : option (Z * bytes) :=
  match data with
  | b3 :: b2 :: b1 :: b0 :: rest =>
      let u := Z_of_byte b3 * 16777216 + Z_of_byte b2 * 65536
               + Z_of_byte b1 * 256 + Z_of_byte b0 in
      Some (if u <? 2147483648 then u else u - 4294967296, rest)
  | _ => None
  end.

(** Reads a blob off the front of [data]. *)
Definition read_blob (data : bytes) : option (bytes * bytes) :=
  match read_int32 data with
  | Some (size, rest) =>
      let n := Z.to_nat size in
      let padded := (n + (4 - n mod 4) mod 4)%nat in
      if (0 <=? size) && (padded <=? length rest)%nat
      then Some (take n rest, drop padded rest)
      else None
  | None => None
  end.

Fixpoint read_args (tags : list ascii) (data : bytes) : option (list value) :=
  match tags with
  | [] => match data with [] => Some [] | _ => None end
  | t :: ts =>
      if Ascii.eqb t "i" then
        match read_int32 data with
        | Some (n, rest) => cons (VInt n) <$> read_args ts rest
        | None => None
        end
      else if Ascii.eqb t "s" then
        match read_string data with
        | Some (s, rest) => cons (VStr s) <$> read_args ts rest
        | None => None
        end
      else if Ascii.eqb t "b" then
        match read_blob data with
        | Some (b, rest) => cons (VBlob b) <$> read_args ts rest
        | None => None
        end
      else if Ascii.eqb t "T" then cons (VBool true) <$> read_args ts data
      else if Ascii.eqb t "F" then cons (VBool false) <$> read_args ts data
      else None
  end.

Definition decode (data : bytes) : result message :=
  match read_string data with
  | Some (String "/" a, rest) =>
      match read_string rest with
      | Some (String "," tags, rest') =>
          match read_args (list_ascii_of_string tags) rest' with
          | Some ps => Return (mkMessage (String "/" a) ps)
          | None => Raise ParseError
          end
      | _ => Raise ParseError
      end
  | _ => Raise ParseError
  end.

#[global] Instance codec : Codec := {|
  OscMessage := decode;
  Builder := string * list value;
  OscMessageBuilder := λ address, (address, []);
  add_arg := λ b v,
    match arg_type v with
    | Some _ => Return (fst b, snd b ++ [v])
    | None => Raise (Exception_ "ValueError")
    end;
  build := encode
|}.

Definition EACCES : Z := 13.
Definition EMSGSIZE : Z := 90.
Definition ECONNREFUSED : Z := 111.

Definition bad_port (a : endpoint) : bool := (snd a <? 0) || (65535 <? snd a).

(** Linux: a port outside 16 bits is an [OverflowError]; a datagram to the
    broadcast address from a socket without [SO_BROADCAST] is refused with
    [EACCES]; a payload over 65507 bytes with [EMSGSIZE]. *)
#[global] Instance sockets : Sockets := {|
  EAGAIN := 11;
  EWOULDBLOCK := 11;
  bind_fails := λ a, if bad_port a then Some (Exception_ "OverflowError") else None;
  sendto_fails := λ dgram a,
    if bad_port a then Some (Exception_ "OverflowError")
    else if String.eqb (fst a) "255.255.255.255" then Some (socket_error EACCES)
    else if (65507 <? Z.of_nat (length dgram)) then Some (socket_error EMSGSIZE)
    else None
|}.

Definition App : Type := list string.

(** A handler that notes its name and answers [rv]. *)
Definition answers (name : string) (rv : option (list value)) : handler App :=
  λ _ a, (Return rv, a ++ [name]).

(** A handler that notes its name and raises [e]. *)
Definition raises (name : string) (e : exn) : handler App :=
  λ _ a, (Raise e, a ++ [name]).

(** A server on [0.0.0.0:11000] answering to port 11001. *)
Definition server : World App :=
  {| _local_addr := ("0.0.0.0", 11000);
     _remote_addr := ("127.0.0.1", 11001);
     _response_port := 11001;
     _callbacks := ∅;
     rx := []; tx := []; closed := false;
     logged := [LogStarting ("0.0.0.0", 11000) 11001];
     build_calls := 0;
     app_state := [] |}.

(** The world after running [m], whatever it returned. *)
Definition after {A} (m : Py App A) (w : World App) : World App := snd (m w).

Definition dgram_of (address : string) (args : list value) : bytes :=
  match encode (address, args) with Return d => d | Raise _ => [] end.

(** A client at 1.2.3.4, sending from the ephemeral port 55000. *)
Definition client : endpoint := ("1.2.3.4", 55000).

Definition from_client (address : string) (args : list value) : recv_event :=
  Datagram (dgram_of address args) client.

(** Four bytes that are no OSC message. *)
Definition junk : bytes := String.list_byte_of_string "junk".

(** The server with four handlers registered. *)
Definition registered : World App :=
  after (add_handler "/boom" (raises "boom" (Exception_ "ValueError")))
    (after (add_handler "/test" (answers "test" (Some [VInt 1; VInt 2])))
      (after (add_handler "/ping" (answers "ping" (Some [])))
        (after (add_handler "/quiet" (answers "quiet" None)) server))).

(** Batches queued on the socket of [registered] before one [process]. *)
Definition batch (evs : list recv_event) : World App := deliver evs registered.

Definition fault_batch : World App :=
  batch [from_client "/boom" []; from_client "/test" []].

Definition test_batch : World App := batch [from_client "/test" []].

Definition ping_batch : World App := batch [from_client "/ping" []].

Definition quiet_batch : World App := batch [from_client "/quiet" []].

(** The broadcast address, which the socket may not send to. *)
Definition broadcast : endpoint := ("255.255.255.255", 11001).

(** An integer that does not fit 32 bits: [add_arg] takes it, [build]
    cannot write it. *)
Definition too_big : value := VInt 4294967296.

(** A handler answering with an integer [build] cannot write, queued
    before "/test". *)
Definition bad_reply_batch : World App :=
  deliver [from_client "/bad" []; from_client "/test" []]
    (after (add_handler "/bad" (answers "bad" (Some [too_big]))) registered).

(** A handler answering with an object [add_arg] rejects, queued before
    "/test". *)
Definition unsupported_reply_batch : World App :=
  deliver [from_client "/odd" []; from_client "/test" []]
    (after (add_handler "/odd" (answers "odd" (Some [VObj "<object>"]))) registered).

(** Two datagrams queued on a server whose handlers were cleared. *)
Definition cleared_batch : World App :=
  after clear_handlers (batch [from_client "/test" []; Datagram junk client]).

(** A life: a registration, an arrival, a drain, a reset and the end. *)
Definition life : list (action App) :=
  [Add_handler "/test" (answers "test" (Some [VInt 1; VInt 2]));
   Deliver [from_client "/test" []];
   Process;
   Send "/hello" [VStr "world"] None;
   Clear_handlers;
   Shutdown].

End Bench.

(** * Properties *)

(** ** The monad *)

Section MonadFacts.

Context {App : Type}.

Lemma bind_Return {A B} (m : Py App A) (k : A → Py App B) w a w' :
  m w = (Return a, w') → bind m k w = k a w'.
Proof. intros E. unfold bind. now rewrite E. Qed.

Lemma bind_Raise {A B} (m : Py App A) (k : A → Py App B) w e w' :
  m w = (Raise e, w') → bind m k w = (Raise e, w').
Proof. intros E. unfold bind. now rewrite E. Qed.

Lemma try_except_Return {A} (body : Py App A) clauses w a w' :
  body w = (Return a, w') → try_except body clauses w = (Return a, w').
Proof. intros E. unfold try_except. now rewrite E. Qed.

Lemma try_except_caught {A} (body : Py App A) clauses w e w' h :
  body w = (Raise e, w') → first_clause e clauses = Some h →
  try_except body clauses w = h w'.
Proof. intros E F. unfold try_except. now rewrite E, F. Qed.

Lemma try_except_uncaught {A} (body : Py App A) clauses w e w' :
  body w = (Raise e, w') → first_clause e clauses = None →
  try_except body clauses w = (Raise e, w').
Proof. intros E F. unfold try_except. now rewrite E, F. Qed.

End MonadFacts.

(** ** What a method leaves alone *)

Section Frame.

Context {App : Type} `{Codec} `{Sockets}.
Context {X : Type} (f : World App → X).

Lemma preserves_ret {A} (a : A) : preserves f (ret a).
Proof. now intros w. Qed.

Lemma preserves_raise {A} (e : exn) : preserves f (@raise App A e).
Proof. now intros w. Qed.

Lemma preserves_lift {A} (r : result A) : preserves f (lift r).
Proof. now intros w. Qed.

Lemma preserves_gets {A} (g : World App → A) : preserves f (gets g).
Proof. now intros w. Qed.

Lemma preserves_bind {A B} (m : Py App A) (k : A → Py App B) :
  preserves f m → (∀ a, preserves f (k a)) → preserves f (bind m k).
Proof.
  intros Hm Hk w. specialize (Hm w). unfold bind.
  destruct (m w) as [[a|e] w']; simpl in *.
  - now rewrite Hk.
  - exact Hm.
Qed.

Lemma preserves_try_except {A} (body : Py App A) clauses :
  preserves f body →
  Forall (λ c, ∀ e, preserves f (snd c e)) clauses →
  preserves f (try_except body clauses).
Proof.
  intros Hb Hc w. specialize (Hb w). unfold try_except.
  destruct (body w) as [[a|e] w']; simpl in *; [exact Hb|].
  assert (Hh : ∀ h, first_clause e clauses = Some h → preserves f h).
  { clear Hb. induction Hc as [|[cls h'] rest Hh' _ IH]; simpl; [discriminate|].
    intros h. destruct (cls e); [|exact (IH h)].
    intros [= <-]. apply Hh'. }
  destruct (first_clause e clauses) as [h|]; simpl; [|exact Hb].
  now rewrite (Hh h eq_refl).
Qed.

(** The methods write the log, the sent datagrams and the count of builds;
    a part of the world that none of these is, [send] leaves alone. *)
Hypothesis f_log : ∀ l w, f (set_log l w) = f w.
Hypothesis f_tx : ∀ t w, f (set_tx t w) = f w.
Hypothesis f_build_calls : ∀ n w, f (set_build_calls n w) = f w.

Lemma preserves_logger_info l : preserves f (logger_info l).
Proof. intros w. apply f_log. Qed.

Lemma preserves_sendto dgram addr : preserves f (sendto dgram addr).
Proof.
  intros w. unfold sendto. destruct (closed w); [reflexivity|].
  destruct (sendto_fails dgram addr); [reflexivity|]. apply f_tx.
Qed.

Lemma preserves_call_build b : preserves f (call_build b).
Proof. intros w. apply f_build_calls. Qed.

Lemma preserves_send address params remote_addr :
  preserves f (send address params remote_addr).
Proof.
  unfold send. apply preserves_bind; [apply preserves_lift|]. intros b.
  apply preserves_try_except.
  - apply preserves_bind; [apply preserves_call_build|]. intros dgram.
    apply preserves_bind; [|intros a; apply preserves_sendto].
    destruct remote_addr; [apply preserves_ret|apply preserves_gets].
  - repeat constructor. intros e. apply preserves_logger_info.
Qed.

(** Handlers act on the application state. *)
Hypothesis f_app : ∀ a w, f (set_app a w) = f w.

Lemma preserves_call callback ps : preserves f (call callback ps).
Proof.
  intros w. unfold call. destruct (callback ps (app_state w)) as [r a].
  apply f_app.
Qed.

Lemma preserves_dispatch data remote_addr :
  preserves f (dispatch data remote_addr).
Proof.
  unfold dispatch. apply preserves_try_except.
  - apply preserves_bind; [apply preserves_lift|]. intros m.
    apply preserves_bind; [apply preserves_gets|]. intros callbacks.
    destruct (callbacks !! address m) as [callback|];
      [|apply preserves_logger_info].
    apply preserves_bind; [apply preserves_call|]. intros [rv|];
      [|apply preserves_ret].
    apply preserves_bind; [apply preserves_gets|]. intros p.
    apply preserves_send.
  - repeat constructor. intros e. apply preserves_logger_info.
Qed.

(** [recvfrom] takes events off the socket's queue. *)
Hypothesis f_rx : ∀ q w, f (set_rx q w) = f w.

Lemma preserves_recvfrom : preserves f recvfrom.
Proof.
  intros w. unfold recvfrom. destruct (closed w); [reflexivity|].
  destruct (rx w) as [|[data a|errno] q]; [reflexivity| |]; apply f_rx.
Qed.

Lemma preserves_loop_body : preserves f loop_body.
Proof.
  unfold loop_body. apply preserves_bind; [apply preserves_recvfrom|].
  intros r. apply preserves_dispatch.
Qed.

Lemma preserves_while_True gas : preserves f (while_True gas loop_body).
Proof.
  induction gas as [|gas IH]; simpl; [apply preserves_loop_body|].
  apply preserves_bind; [apply preserves_loop_body|]. intros _. exact IH.
Qed.

Lemma preserves_process : preserves f process.
Proof.
  intros w. unfold process.
  apply (preserves_try_except (while_True (length (rx w)) loop_body)).
  - apply preserves_while_True.
  - repeat constructor; intros e; simpl;
      [destruct (would_block e); [apply preserves_ret|]|];
      apply preserves_logger_info.
Qed.

End Frame.

(** ** [send], case by case *)

Section Send.

Context {App : Type} `{Codec} `{Sockets}.

Implicit Types (w : World App) (dest : endpoint).

Lemma send_add_arg_raises w address params remote_addr e :
  add_args (OscMessageBuilder address) params = Raise e →
  send address params remote_addr w = (Raise e, w).
Proof. intros E. unfold send, bind, lift. now rewrite E. Qed.

Lemma send_build_raises w address params remote_addr b e :
  add_args (OscMessageBuilder address) params = Return b →
  build b = Raise e →
  send address params remote_addr w =
    if isinstance_BuildError e
    then (Return tt, set_log (logged w ++ [LogBuildError e])
                       (set_build_calls (S (build_calls w)) w))
    else (Raise e, set_build_calls (S (build_calls w)) w).
Proof.
  intros E B. unfold send, bind, lift, try_except, call_build. rewrite E, B.
  simpl. now destruct (isinstance_BuildError e).
Qed.

Lemma send_transmits w address params remote_addr b dgram :
  add_args (OscMessageBuilder address) params = Return b →
  build b = Return dgram →
  closed w = false →
  sendto_fails dgram (destination remote_addr w) = None →
  send address params remote_addr w =
    (Return tt, set_tx (tx w ++ [(dgram, destination remote_addr w)])
                  (set_build_calls (S (build_calls w)) w)).
Proof.
  intros E B C S. unfold send, bind, lift, try_except, call_build, sendto.
  rewrite E, B. destruct remote_addr as [a|]; simpl in *; now rewrite C, S.
Qed.

(** The datagrams sent after [send], in every case. *)
Lemma send_tx w address params dest :
  closed w = false →
  tx (snd (send address params (Some dest) w)) =
    tx w ++ transmitted address params dest.
Proof.
  intros C. unfold transmitted.
  destruct (add_args (OscMessageBuilder address) params) as [b|e] eqn:E.
  - destruct (build b) as [dgram|e] eqn:B.
    + unfold send, bind, lift, try_except, call_build, sendto.
      rewrite E, B. simpl. rewrite C.
      destruct (sendto_fails dgram dest) as [e|]; simpl.
      * destruct (isinstance_BuildError e); simpl; now rewrite app_nil_r.
      * reflexivity.
    + rewrite (send_build_raises _ _ _ _ _ _ E B).
      destruct (isinstance_BuildError e); simpl; now rewrite app_nil_r.
  - rewrite (send_add_arg_raises _ _ _ _ _ E). simpl. now rewrite app_nil_r.
Qed.

End Send.

(** ** The loop of [process], round by round *)

Section Drain.

Context {App : Type} `{Codec} `{Sockets}.

Implicit Types (w : World App).

Lemma loop_body_Datagram w data remote_addr rest :
  closed w = false → rx w = Datagram data remote_addr :: rest →
  loop_body w = dispatch data remote_addr (received rest w).
Proof.
  intros C R. unfold loop_body, bind, recvfrom. now rewrite C, R.
Qed.

Lemma loop_body_recvfrom_raises w e w' :
  recvfrom w = (Raise e, w') → loop_body w = (Raise e, w').
Proof. intros E. unfold loop_body. now apply bind_Raise. Qed.

Lemma dispatch_rx data remote_addr w :
  rx (snd (dispatch data remote_addr w)) = rx w.
Proof. now apply (preserves_dispatch rx). Qed.

Lemma dispatch_closed data remote_addr w :
  closed (snd (dispatch data remote_addr w)) = closed w.
Proof. now apply (preserves_dispatch closed). Qed.

(** A round that returns has taken one datagram off the queue. *)
Lemma loop_body_Return w w1 :
  loop_body w = (Return tt, w1) → length (rx w) = S (length (rx w1)).
Proof.
  unfold loop_body, bind, recvfrom.
  destruct (closed w); [discriminate|].
  destruct (rx w) as [|[data a|errno] q]; [discriminate| |discriminate].
  simpl. intros E.
  pose proof (dispatch_rx data a (set_rx q w)) as R. rewrite E in R.
  simpl in R. now rewrite R.
Qed.

(** With nothing queued the round raises. *)
Lemma loop_body_empty w :
  rx w = [] → ∃ e, loop_body w = (Raise e, w).
Proof.
  intros R. unfold loop_body, bind, recvfrom. rewrite R.
  destruct (closed w); eauto.
Qed.

(** [while True] never runs out of rounds: it ends by an exception. *)
Lemma while_True_raises gas : ∀ w,
  (length (rx w) ≤ gas)%nat →
  ∃ e w', while_True gas loop_body w = (Raise e, w').
Proof.
  induction gas as [|gas IH]; intros w L; simpl.
  - destruct (rx w) eqn:R; [|simpl in L; lia].
    destruct (loop_body_empty w R) as [e E]. eauto.
  - unfold bind. destruct (loop_body w) as [[[]|e] w1] eqn:E; [|eauto].
    apply IH. apply loop_body_Return in E. lia.
Qed.

(** More rounds than there are events queued change nothing. *)
Lemma while_True_gas gas : ∀ gas' w,
  (length (rx w) ≤ gas)%nat → (length (rx w) ≤ gas')%nat →
  while_True gas loop_body w = while_True gas' loop_body w.
Proof.
  induction gas as [|gas IH]; intros [|gas'] w L L'; simpl; try reflexivity.
  - destruct (rx w) eqn:R; [|simpl in L; lia].
    destruct (loop_body_empty w R) as [e E]. unfold bind. now rewrite E.
  - destruct (rx w) eqn:R; [|simpl in L'; lia].
    destruct (loop_body_empty w R) as [e E]. unfold bind. now rewrite E.
  - unfold bind. destruct (loop_body w) as [[[]|e] w1] eqn:E; [|reflexivity].
    apply loop_body_Return in E. apply IH; lia.
Qed.

Lemma process_unfold w gas :
  (length (rx w) ≤ gas)%nat →
  process w =
    match while_True gas loop_body w with
    | (Return a, w') => (Return a, w')
    | (Raise e, w') => process_except e w'
    end.
Proof.
  intros L. unfold process, try_except.
  rewrite (while_True_gas (length (rx w)) gas w); [|lia|exact L].
  destruct (while_True gas loop_body w) as [[a|e] w']; [reflexivity|].
  unfold process_except. simpl.
  destruct (isinstance_socket_error e); [reflexivity|].
  now destruct (isinstance_Exception e).
Qed.

(** A round that returns is followed by the rest of the drain. *)
Lemma process_round w w1 :
  loop_body w = (Return tt, w1) → process w = process w1.
Proof.
  intros E. pose proof (loop_body_Return _ _ E) as L.
  rewrite (process_unfold w (S (length (rx w1)))); [|lia].
  rewrite (process_unfold w1 (length (rx w1))); [|lia].
  simpl. unfold bind. now rewrite E.
Qed.

(** A round that raises ends the drain in the outer [except] clauses. *)
Lemma process_round_raises w e w1 :
  loop_body w = (Raise e, w1) → process w = process_except e w1.
Proof.
  intros E. rewrite (process_unfold w (length (rx w))); [|lia].
  destruct (length (rx w)); simpl; unfold bind; now rewrite E.
Qed.

Lemma process_drains w w1 : drains w w1 → process w = process w1.
Proof.
  induction 1 as [|w w1 w2 E _ IH]; [reflexivity|].
  now rewrite (process_round _ _ E).
Qed.

(** [process] passes on nothing that derives from [Exception]. *)
Lemma process_except_raises e w e' w' :
  process_except e w = (Raise e', w') →
  e' = e ∧ isinstance_Exception e = false.
Proof.
  unfold process_except.
  destruct (isinstance_socket_error e);
    [destruct (would_block e); discriminate|].
  destruct (isinstance_Exception e); [discriminate|].
  now intros [= <- <-].
Qed.

Lemma process_raises w e w' :
  process w = (Raise e, w') → isinstance_Exception e = false.
Proof.
  rewrite (process_unfold w (length (rx w))); [|lia].
  destruct (while_True_raises (length (rx w)) w) as (e0 & w0 & E); [lia|].
  rewrite E. intros P. apply process_except_raises in P as [-> P]. exact P.
Qed.

End Drain.

(** ** One datagram, case by case *)

Section Dispatch.

Context {App : Type} `{Codec} `{Sockets}.

Implicit Types (w : World App) (h : handler App).

Lemma dispatch_decode_raises w data remote_addr e :
  OscMessage data = Raise e →
  dispatch data remote_addr w =
    if isinstance_ParseError e
    then (Return tt, set_log (logged w ++ [LogParseError e]) w)
    else (Raise e, w).
Proof.
  intros D. unfold dispatch, try_except, bind, lift. rewrite D. simpl.
  now destruct (isinstance_ParseError e).
Qed.

Lemma dispatch_unknown w data remote_addr m :
  OscMessage data = Return m →
  _callbacks w !! address m = None →
  dispatch data remote_addr w =
    (Return tt, set_log (logged w ++ [LogUnknownAddress (address m)]) w).
Proof.
  intros D L. unfold dispatch, try_except, bind, lift, gets. rewrite D.
  simpl. now rewrite L.
Qed.

Lemma dispatch_handler_raises w data remote_addr m h e a' :
  OscMessage data = Return m →
  _callbacks w !! address m = Some h →
  h (params m) (app_state w) = (Raise e, a') →
  dispatch data remote_addr w =
    if isinstance_ParseError e
    then (Return tt, set_log (logged w ++ [LogParseError e]) (set_app a' w))
    else (Raise e, set_app a' w).
Proof.
  intros D L R. unfold dispatch, try_except, bind, lift, gets, call.
  rewrite D. simpl. rewrite L, R. simpl. now destruct (isinstance_ParseError e).
Qed.

Lemma dispatch_handler_None w data remote_addr m h a' :
  OscMessage data = Return m →
  _callbacks w !! address m = Some h →
  h (params m) (app_state w) = (Return None, a') →
  dispatch data remote_addr w = (Return tt, set_app a' w).
Proof.
  intros D L R. unfold dispatch, try_except, bind, lift, gets, call.
  rewrite D. simpl. now rewrite L, R.
Qed.

Lemma dispatch_handler_Some w data remote_addr m h rv a' :
  OscMessage data = Return m →
  _callbacks w !! address m = Some h →
  h (params m) (app_state w) = (Return (Some rv), a') →
  dispatch data remote_addr w =
    try_except
      (send (address m) rv (Some (fst remote_addr, _response_port w)))
      except_ParseError
      (set_app a' w).
Proof.
  intros D L R. unfold dispatch, try_except, bind at 1, lift. rewrite D.
  unfold bind at 1, gets. simpl. rewrite L.
  unfold bind at 1, call. rewrite R. simpl. reflexivity.
Qed.

Lemma try_except_ParseError_tx (body : Py App unit) w :
  tx (snd (try_except body except_ParseError w)) = tx (snd (body w)).
Proof.
  unfold try_except, except_ParseError.
  destruct (body w) as [[a|e] w']; [reflexivity|]. simpl.
  now destruct (isinstance_ParseError e).
Qed.

End Dispatch.

(** ** Replies *)

Section Replies.

Context {App : Type} `{Codec} `{Sockets}.

Implicit Types (w : World App) (h : handler App).

(** Whatever [send] transmits goes to the destination it was given. *)
Lemma transmitted_dest address params dest x :
  x ∈ transmitted address params dest → snd x = dest.
Proof.
  unfold transmitted.
  destruct (add_args (OscMessageBuilder address) params) as [b|e];
    [|now intros ?%elem_of_nil].
  destruct (build b) as [dgram|e]; [|now intros ?%elem_of_nil].
  destruct (sendto_fails dgram dest); [now intros ?%elem_of_nil|].
  now intros ->%list_elem_of_singleton.
Qed.

(** The datagrams sent after the round of a datagram whose handler
    returned [rv]. *)
Lemma loop_body_reply_tx w data remote_addr rest m h rv a' :
  closed w = false →
  rx w = Datagram data remote_addr :: rest →
  OscMessage data = Return m →
  _callbacks w !! address m = Some h →
  h (params m) (app_state w) = (Return (Some rv), a') →
  tx (snd (loop_body w)) =
    tx w ++ transmitted (address m) rv (fst remote_addr, _response_port w).
Proof.
  intros C R D L E.
  rewrite (loop_body_Datagram _ _ _ _ C R).
  rewrite (dispatch_handler_Some (received rest w) _ _ m h rv a' D L E).
  rewrite try_except_ParseError_tx.
  now rewrite send_tx.
Qed.

(** The application state after [dispatch]: the registered handler ran,
    once. *)
Lemma dispatch_app_state w data remote_addr m h :
  OscMessage data = Return m →
  _callbacks w !! address m = Some h →
  app_state (snd (dispatch data remote_addr w)) = snd (h (params m) (app_state w)).
Proof.
  intros D L. destruct (h (params m) (app_state w)) as [[[rv|]|e] a'] eqn:E.
  - rewrite (dispatch_handler_Some _ _ _ m h rv a' D L E).
    rewrite (preserves_try_except app_state); [reflexivity| |].
    + now apply preserves_send.
    + now repeat constructor.
  - now rewrite (dispatch_handler_None _ _ _ m h a' D L E).
  - rewrite (dispatch_handler_raises _ _ _ m h e a' D L E).
    now destruct (isinstance_ParseError e).
Qed.

(** A fault of the handler that is no [ParseError] leaves the loop. *)
Lemma handler_fault_ends_the_drain w0 w data remote_addr rest m h e a' :
  drains w0 w →
  closed w = false →
  rx w = Datagram data remote_addr :: rest →
  OscMessage data = Return m →
  _callbacks w !! address m = Some h →
  h (params m) (app_state w) = (Raise e, a') →
  isinstance_ParseError e = false →
  process w0 = process_except e (set_app a' (received rest w)).
Proof.
  intros Dr C R D L E P. rewrite (process_drains _ _ Dr).
  apply process_round_raises.
  rewrite (loop_body_Datagram _ _ _ _ C R).
  rewrite (dispatch_handler_raises (received rest w) _ _ m h e a' D L E).
  now rewrite P.
Qed.

End Replies.

(** * The claims *)

(** C6: a datagram whose bytes fail to decode with [ParseError] costs one
    line of log and nothing else: the round returns, nothing is sent, the
    registry is as before, and [process] goes on with the datagrams queued
    behind it. *)
Theorem parse_error_is_dropped {App : Type} `{Codec} `{Sockets}
    (w0 w : World App) data remote_addr rest :
  drains w0 w →
  closed w = false →
  rx w = Datagram data remote_addr :: rest →
  OscMessage data = Raise ParseError →
  loop_body w = (Return tt, logging (LogParseError ParseError) (received rest w))
  ∧ tx (logging (LogParseError ParseError) (received rest w)) = tx w
  ∧ _callbacks (logging (LogParseError ParseError) (received rest w)) = _callbacks w
  ∧ rx (logging (LogParseError ParseError) (received rest w)) = rest
  ∧ process w0 = process (logging (LogParseError ParseError) (received rest w)).
Proof.
  intros Dr C R D.
  assert (E : loop_body w =
    (Return tt, logging (LogParseError ParseError) (received rest w))).
  { rewrite (loop_body_Datagram _ _ _ _ C R).
    now rewrite (dispatch_decode_raises _ _ _ _ D). }
  repeat split; try reflexivity; [exact E|].
  rewrite (process_drains _ _ Dr). now apply process_round.
Qed.

Lemma parse_error_is_dropped_witness :
  process (deliver [Bench.from_client "/quiet" []; Datagram Bench.junk Bench.client;
                    Bench.from_client "/test" []] Bench.registered)
  = process (logging (LogParseError ParseError)
       (received [Bench.from_client "/test" []]
          (Bench.after loop_body
             (deliver [Bench.from_client "/quiet" []; Datagram Bench.junk Bench.client;
                       Bench.from_client "/test" []] Bench.registered)))).
Proof.
  refine (proj2 (proj2 (proj2 (proj2 (parse_error_is_dropped
           (deliver [Bench.from_client "/quiet" []; Datagram Bench.junk Bench.client;
                     Bench.from_client "/test" []] Bench.registered)
           (Bench.after loop_body
             (deliver [Bench.from_client "/quiet" []; Datagram Bench.junk Bench.client;
                       Bench.from_client "/test" []] Bench.registered))
           Bench.junk Bench.client [Bench.from_client "/test" []] _ _ _ _))))).
  - eapply drains_round; [|apply drains_here]. vm_compute. reflexivity.
  - reflexivity.
  - vm_compute. reflexivity.
  - reflexivity.
Defined.

(** C8: a well-formed datagram for an address without a handler costs one
    line of log, "unknown address", and nothing else: the round returns,
    nothing is sent, and [process] goes on with the datagrams queued behind
    it. *)
Theorem unknown_address_is_logged {App : Type} `{Codec} `{Sockets}
    (w0 w : World App) data remote_addr rest m :
  drains w0 w →
  closed w = false →
  rx w = Datagram data remote_addr :: rest →
  OscMessage data = Return m →
  _callbacks w !! address m = None →
  loop_body w = (Return tt, logging (LogUnknownAddress (address m)) (received rest w))
  ∧ tx (logging (LogUnknownAddress (address m)) (received rest w)) = tx w
  ∧ rx (logging (LogUnknownAddress (address m)) (received rest w)) = rest
  ∧ process w0 = process (logging (LogUnknownAddress (address m)) (received rest w)).
Proof.
  intros Dr C R D L.
  assert (E : loop_body w =
    (Return tt, logging (LogUnknownAddress (address m)) (received rest w))).
  { rewrite (loop_body_Datagram _ _ _ _ C R).
    now rewrite (dispatch_unknown _ _ _ m D). }
  repeat split; try reflexivity; [exact E|].
  rewrite (process_drains _ _ Dr). now apply process_round.
Qed.

Lemma unknown_address_is_logged_witness :
  process (deliver [Bench.from_client "/nobody" [VInt 7]; Bench.from_client "/test" []]
             Bench.registered)
  = process (logging (LogUnknownAddress "/nobody")
       (received [Bench.from_client "/test" []]
          (deliver [Bench.from_client "/nobody" [VInt 7]; Bench.from_client "/test" []]
             Bench.registered))).
Proof.
  refine (proj2 (proj2 (proj2 (unknown_address_is_logged
           (deliver [Bench.from_client "/nobody" [VInt 7]; Bench.from_client "/test" []]
              Bench.registered)
           (deliver [Bench.from_client "/nobody" [VInt 7]; Bench.from_client "/test" []]
              Bench.registered)
           (Bench.dgram_of "/nobody" [VInt 7]) Bench.client
           [Bench.from_client "/test" []] (mkMessage "/nobody" [VInt 7]) _ _ _ _ _)))).
  - apply drains_here.
  - reflexivity.
  - reflexivity.
  - vm_compute. reflexivity.
  - vm_compute. reflexivity.
Defined.

(** C9: a socket error raised in a round, by [recvfrom] or by the [sendto]
    of a reply, ends the drain and [process] returns normally: on the
    would-block errno ([EAGAIN] or [EWOULDBLOCK]) without a line of log, on
    any other errno with one line of log.  [recvfrom] raises socket errors
    only; an empty queue is the would-block case and leaves the world as
    it is; behind an error taken off the queue, what is queued stays
    queued. *)
Theorem socket_error_ends_the_drain {App : Type} `{Codec} `{Sockets}
    (w0 w : World App) :
  drains w0 w →
  (∀ errno w', loop_body w = (Raise (socket_error errno), w') →
     process w0
     = (Return tt,
        if (errno =? EAGAIN) || (errno =? EWOULDBLOCK) then w'
        else logging (LogSocketError (socket_error errno)) w'))
  ∧ (∀ e w', recvfrom w = (Raise e, w') →
       loop_body w = (Raise e, w') ∧ ∃ errno, e = socket_error errno)
  ∧ (closed w = false → rx w = [] → process w0 = (Return tt, w))
  ∧ (∀ errno rest, closed w = false → rx w = RecvError errno :: rest →
       process w0
       = (Return tt,
          if (errno =? EAGAIN) || (errno =? EWOULDBLOCK) then received rest w
          else logging (LogSocketError (socket_error errno)) (received rest w))).
Proof.
  intros Dr.
  assert (P : ∀ errno w', loop_body w = (Raise (socket_error errno), w') →
    process w0 = (Return tt,
      if (errno =? EAGAIN) || (errno =? EWOULDBLOCK) then w'
      else logging (LogSocketError (socket_error errno)) w')).
  { intros errno w' E. rewrite (process_drains _ _ Dr).
    rewrite (process_round_raises _ _ _ E). unfold process_except, would_block.
    simpl. now destruct ((errno =? EAGAIN) || (errno =? EWOULDBLOCK)). }
  split; [exact P|]. split; [|split].
  - intros e w' R. split; [now apply loop_body_recvfrom_raises|].
    revert R. unfold recvfrom. destruct (closed w); [intros [= <- _]; eauto|].
    destruct (rx w) as [|[d a|n] q]; [|discriminate|]; intros [= <- _]; eauto.
  - intros C Q. rewrite (P EWOULDBLOCK w).
    + now rewrite Z.eqb_refl, orb_true_r.
    + apply loop_body_recvfrom_raises. unfold recvfrom. now rewrite C, Q.
  - intros errno rest C Q. apply P.
    apply loop_body_recvfrom_raises. unfold recvfrom. now rewrite C, Q.
Qed.

Lemma socket_error_ends_the_drain_witness :
  process (Bench.batch [Bench.from_client "/quiet" []; RecvError Bench.ECONNREFUSED;
                        Bench.from_client "/test" []])
  = (Return tt,
     logging (LogSocketError (socket_error Bench.ECONNREFUSED))
       (received [Bench.from_client "/test" []]
          (Bench.after loop_body
             (Bench.batch [Bench.from_client "/quiet" []; RecvError Bench.ECONNREFUSED;
                           Bench.from_client "/test" []]))))
  ∧ process Bench.registered = (Return tt, Bench.registered).
Proof.
  split.
  - refine (proj2 (proj2 (proj2 (socket_error_ends_the_drain
             (Bench.batch [Bench.from_client "/quiet" []; RecvError Bench.ECONNREFUSED;
                           Bench.from_client "/test" []])
             (Bench.after loop_body
                (Bench.batch [Bench.from_client "/quiet" []; RecvError Bench.ECONNREFUSED;
                              Bench.from_client "/test" []])) _)))
             Bench.ECONNREFUSED [Bench.from_client "/test" []] _ _).
    + eapply drains_round; [|apply drains_here]. vm_compute. reflexivity.
    + reflexivity.
    + reflexivity.
  - refine (proj1 (proj2 (proj2 (socket_error_ends_the_drain Bench.registered
             Bench.registered _))) _ _).
    + apply drains_here.
    + reflexivity.
    + reflexivity.
Defined.

(** C1 (the code departs from the claim): a handler that raises is not
    caught at the call site but by the [except Exception] clause around the
    loop, so the drain ends there.  With "/boom" (whose handler raises
    ValueError) queued before "/test", [process] returns after one line of
    log; the "/test" datagram is still on the socket, its handler has not
    run and no reply was sent.  Queued alone, "/test" is dispatched and
    answered. *)
Theorem handler_fault_strands_the_batch :
  process Bench.fault_batch
  = (Return tt,
     logging (LogErrorHandlingMessage (Exception_ "ValueError"))
       (set_app ["boom"%string]
          (received [Bench.from_client "/test" []] Bench.fault_batch)))
  ∧ rx (Bench.after process Bench.fault_batch) = [Bench.from_client "/test" []]
  ∧ app_state (Bench.after process Bench.fault_batch) = ["boom"%string]
  ∧ tx (Bench.after process Bench.fault_batch) = []
  ∧ rx (Bench.after process Bench.test_batch) = []
  ∧ app_state (Bench.after process Bench.test_batch) = ["test"%string]
  ∧ tx (Bench.after process Bench.test_batch)
    = [(Bench.dgram_of "/test" [VInt 1; VInt 2], ("1.2.3.4"%string, 11001))].
Proof.
  assert (E : process Bench.fault_batch
    = process_except (Exception_ "ValueError")
        (set_app ["boom"%string]
           (received [Bench.from_client "/test" []] Bench.fault_batch))).
  { apply (handler_fault_ends_the_drain Bench.fault_batch Bench.fault_batch
             (Bench.dgram_of "/boom" []) Bench.client
             [Bench.from_client "/test" []] (mkMessage "/boom" [])
             (Bench.raises "boom" (Exception_ "ValueError")));
      try reflexivity; try apply drains_here; vm_compute; reflexivity. }
  unfold Bench.after. rewrite E. repeat split; vm_compute; reflexivity.
Qed.

(** C2, as stated, fails: [send] catches [BuildError] only.  Sending to the
    broadcast address, which the socket refuses with [EACCES], raises the
    socket error out of [send]. *)
Lemma send_raises_socket_error :
  send "/x" [] (Some Bench.broadcast) Bench.registered
  = (Raise (socket_error Bench.EACCES), set_build_calls 1 Bench.registered)
  ∧ ¬ ∃ w', send "/x" [] (Some Bench.broadcast) Bench.registered = (Return tt, w').
Proof.
  assert (E : send "/x" [] (Some Bench.broadcast) Bench.registered
    = (Raise (socket_error Bench.EACCES), set_build_calls 1 Bench.registered))
    by (vm_compute; reflexivity).
  split; [exact E|]. intros [w' E']. rewrite E in E'. discriminate.
Qed.

(** C2, amended: [process] passes on no exception that derives from
    [Exception].  [send] returns normally when every [add_arg] returns and
    [build] raises [BuildError] or yields a datagram the socket takes; what
    [add_arg] raises, and what [sendto] raises other than [BuildError],
    propagates from [send].  The constructor raises exactly what a failing
    [bind] raises. *)
Theorem exceptions_that_propagate {App : Type} `{Codec} `{Sockets}
    (w : World App) address params remote_addr local_addr default_addr (app0 : App) :
  (∀ e w', process w = (Raise e, w') → isinstance_Exception e = false)
  ∧ (∀ b, add_args (OscMessageBuilder address) params = Return b →
       build b = Raise BuildError
       ∨ (∃ dgram, build b = Return dgram ∧ closed w = false
                   ∧ sendto_fails dgram (destination remote_addr w) = None) →
       ∃ w', send address params remote_addr w = (Return tt, w'))
  ∧ (∀ e, add_args (OscMessageBuilder address) params = Raise e →
       send address params remote_addr w = (Raise e, w))
  ∧ (∀ b dgram e, add_args (OscMessageBuilder address) params = Return b →
       build b = Return dgram → closed w = false →
       sendto_fails dgram (destination remote_addr w) = Some e →
       isinstance_BuildError e = false →
       send address params remote_addr w
       = (Raise e, set_build_calls (S (build_calls w)) w))
  ∧ (∀ e, __init__ local_addr default_addr app0 = Raise e
          ↔ bind_fails local_addr = Some e).
Proof.
  repeat split.
  - intros e w'. apply process_raises.
  - intros b A [B|(dgram & B & C & S)].
    + rewrite (send_build_raises _ _ _ _ _ _ A B). simpl. eauto.
    + rewrite (send_transmits _ _ _ _ _ _ A B C S). eauto.
  - intros e A. now apply send_add_arg_raises.
  - intros b dgram e A B C S N.
    unfold send, bind, lift, try_except, call_build, sendto. rewrite A, B.
    destruct remote_addr as [a|]; simpl in *; rewrite C, S; simpl;
      now rewrite N.
  - unfold __init__. destruct (bind_fails local_addr); now intros [= ->].
  - unfold __init__. now intros ->.
Qed.

Lemma exceptions_that_propagate_witness :
  (∃ w', send "/x" [Bench.too_big] None Bench.registered = (Return tt, w'))
  ∧ send "/x" [] (Some Bench.broadcast) Bench.registered
    = (Raise (socket_error Bench.EACCES), set_build_calls 1 Bench.registered)
  ∧ (__init__ ("0.0.0.0"%string, 70000) ("127.0.0.1"%string, 11001) ([] : Bench.App)
     = Raise (Exception_ "OverflowError")).
Proof.
  split; [|split].
  - refine (proj1 (proj2 (exceptions_that_propagate Bench.registered "/x"
             [Bench.too_big] None ("0.0.0.0"%string, 11000)
             ("127.0.0.1"%string, 11001) [])) ("/x"%string, [Bench.too_big]) _ _).
    + reflexivity.
    + left. reflexivity.
  - refine (proj1 (proj2 (proj2 (proj2 (exceptions_that_propagate Bench.registered
             "/x" [] (Some Bench.broadcast) ("0.0.0.0"%string, 11000)
             ("127.0.0.1"%string, 11001) []))))
             ("/x"%string, []) (Bench.dgram_of "/x" []) _ _ _ _ _ _);
      reflexivity.
  - refine (proj2 (proj2 (proj2 (proj2 (proj2 (exceptions_that_propagate
             Bench.registered "/x" [] None ("0.0.0.0"%string, 70000)
             ("127.0.0.1"%string, 11001) ([] : Bench.App))))) _) _).
    reflexivity.
Defined.

(** C3: when the handler of an inbound datagram returns a result, what the
    round sends is the message built from the inbound address and that
    result, and it goes to the sender's host at the configured response
    port.  The source port of the datagram plays no part: another source
    port gives the same datagrams sent, and nothing is sent to the source
    port when it differs from the response port. *)
Theorem reply_goes_to_the_response_port {App : Type} `{Codec} `{Sockets}
    (w : World App) data host port rest m h rv a' :
  closed w = false →
  rx w = Datagram data (host, port) :: rest →
  OscMessage data = Return m →
  _callbacks w !! address m = Some h →
  h (params m) (app_state w) = (Return (Some rv), a') →
  tx (snd (loop_body w))
  = tx w ++ transmitted (address m) rv (host, _response_port w)
  ∧ (∀ b dgram,
       add_args (OscMessageBuilder (address m)) rv = Return b →
       build b = Return dgram →
       sendto_fails dgram (host, _response_port w) = None →
       tx (snd (loop_body w)) = tx w ++ [(dgram, (host, _response_port w))])
  ∧ (∀ port',
       tx (snd (loop_body (set_rx (Datagram data (host, port') :: rest) w)))
       = tx (snd (loop_body w)))
  ∧ (port ≠ _response_port w →
     ∀ dgram, (dgram, (host, port)) ∈ tx (snd (loop_body w)) →
              (dgram, (host, port)) ∈ tx w).
Proof.
  intros C R D L E.
  pose proof (loop_body_reply_tx w data (host, port) rest m h rv a' C R D L E) as T.
  simpl in T. repeat split.
  - exact T.
  - intros b dgram A B S. rewrite T. unfold transmitted. now rewrite A, B, S.
  - intros port'. rewrite T.
    now rewrite (loop_body_reply_tx (set_rx (Datagram data (host, port') :: rest) w)
                   data (host, port') rest m h rv a').
  - intros N dgram. rewrite T. intros [I|I]%elem_of_app; [exact I|].
    apply transmitted_dest in I. simpl in I. congruence.
Qed.

Lemma reply_goes_to_the_response_port_witness :
  tx (snd (loop_body Bench.test_batch))
  = tx Bench.test_batch
    ++ [(Bench.dgram_of "/test" [VInt 1; VInt 2], ("1.2.3.4"%string, 11001))]
  ∧ OscMessage (Bench.dgram_of "/test" [VInt 1; VInt 2])
    = Return (mkMessage "/test" [VInt 1; VInt 2]).
Proof.
  split; [|reflexivity].
  refine (proj1 (proj2 (reply_goes_to_the_response_port Bench.test_batch
            (Bench.dgram_of "/test" []) "1.2.3.4" 55000 [] (mkMessage "/test" [])
            (Bench.answers "test" (Some [VInt 1; VInt 2])) [VInt 1; VInt 2]
            ["test"%string] _ _ _ _ _))
            ("/test"%string, [VInt 1; VInt 2])
            (Bench.dgram_of "/test" [VInt 1; VInt 2]) _ _ _);
    vm_compute; reflexivity.
Defined.

(** C4, as stated, fails: an object of no type the codec supports is
    rejected by [add_arg], which [send] calls before its [try]; the
    ValueError leaves [send]. *)
Lemma unsupported_argument_raises :
  add_arg (OscMessageBuilder "/x") (VObj "<object>") = Raise (Exception_ "ValueError")
  ∧ send "/x" [VObj "<object>"] None Bench.registered
    = (Raise (Exception_ "ValueError"), Bench.registered)
  ∧ ¬ ∃ w', send "/x" [VObj "<object>"] None Bench.registered = (Return tt, w').
Proof.
  assert (E : send "/x" [VObj "<object>"] None Bench.registered
    = (Raise (Exception_ "ValueError"), Bench.registered))
    by (vm_compute; reflexivity).
  split; [reflexivity|]. split; [exact E|].
  intros [w' E']. rewrite E in E'. discriminate.
Qed.

(** C4, amended: an argument the codec cannot encode is contained when
    the codec says so in [build].  When every [add_arg] returns and
    [build] raises [BuildError], [send] returns normally; it has written
    one line of log and called [build] once, and nothing else of the world
    has changed: no datagram was handed to the socket and nothing is kept
    for later.  When [add_arg] raises, the exception leaves [send], with
    the world as it was: nothing was sent or logged and [build] was not
    called. *)
Theorem unencodable_argument_outcomes {App : Type} `{Codec} `{Sockets}
    (w : World App) addr params remote_addr :
  (∀ b, add_args (OscMessageBuilder addr) params = Return b →
     build b = Raise BuildError →
     send addr params remote_addr w
     = (Return tt, logging (LogBuildError BuildError)
                     (set_build_calls (S (build_calls w)) w))
     ∧ tx (snd (send addr params remote_addr w)) = tx w
     ∧ build_calls (snd (send addr params remote_addr w)) = S (build_calls w))
  ∧ (∀ e, add_args (OscMessageBuilder addr) params = Raise e →
       send addr params remote_addr w = (Raise e, w)
       ∧ tx (snd (send addr params remote_addr w)) = tx w
       ∧ build_calls (snd (send addr params remote_addr w)) = build_calls w).
Proof.
  split.
  - intros b A B. rewrite (send_build_raises _ _ _ _ _ _ A B). now simpl.
  - intros e A. rewrite (send_add_arg_raises _ _ _ _ _ A). now simpl.
Qed.

Lemma unencodable_argument_outcomes_witness :
  send "/x" [VInt 1; Bench.too_big] None Bench.registered
  = (Return tt, logging (LogBuildError BuildError)
                  (set_build_calls 1 Bench.registered))
  ∧ send "/x" [VInt 1; VObj "<object>"] None Bench.registered
    = (Raise (Exception_ "ValueError"), Bench.registered).
Proof.
  split.
  - refine (proj1 (proj1 (unencodable_argument_outcomes Bench.registered "/x"
              [VInt 1; Bench.too_big] None)
              ("/x"%string, [VInt 1; Bench.too_big]) _ _)); reflexivity.
  - refine (proj1 (proj2 (unencodable_argument_outcomes Bench.registered "/x"
              [VInt 1; VObj "<object>"] None)
              (Exception_ "ValueError") _)); reflexivity.
Defined.

(** C5, as stated, fails: the handler of "/ping" returns the empty
    sequence, and a reply without arguments is sent. *)
Lemma empty_result_is_replied :
  _callbacks Bench.ping_batch !! "/ping"%string
  = Some (Bench.answers "ping" (Some []))
  ∧ tx Bench.ping_batch = []
  ∧ tx (Bench.after process Bench.ping_batch)
    = [(Bench.dgram_of "/ping" [], ("1.2.3.4"%string, 11001))].
Proof. repeat split; vm_compute; reflexivity. Qed.

(** C5, amended: the round calls [send], with the inbound address, the
    result and the sender's host at the response port, exactly when the
    handler returns a result other than [None]; the empty sequence is such
    a result and is sent as a message without arguments.  A datagram
    leaves exactly when there is such a result, the codec builds the
    message and the socket takes it. *)
Theorem reply_iff_result_not_None {App : Type} `{Codec} `{Sockets}
    (w : World App) data remote_addr rest m h rv a' :
  closed w = false →
  rx w = Datagram data remote_addr :: rest →
  OscMessage data = Return m →
  _callbacks w !! address m = Some h →
  h (params m) (app_state w) = (Return rv, a') →
  (rv = None → loop_body w = (Return tt, set_app a' (received rest w)))
  ∧ (∀ ps, rv = Some ps →
       loop_body w
       = try_except
           (send (address m) ps (Some (fst remote_addr, _response_port w)))
           except_ParseError
           (set_app a' (received rest w)))
  ∧ (tx (snd (loop_body w)) ≠ tx w
     ↔ ∃ ps, rv = Some ps
             ∧ transmitted (address m) ps (fst remote_addr, _response_port w) ≠ [])
  ∧ (rv = Some [] →
     ∀ dgram, build (OscMessageBuilder (address m)) = Return dgram →
       sendto_fails dgram (fst remote_addr, _response_port w) = None →
       tx (snd (loop_body w))
       = tx w ++ [(dgram, (fst remote_addr, _response_port w))]).
Proof.
  intros C R D L E.
  assert (N : rv = None → loop_body w = (Return tt, set_app a' (received rest w))).
  { intros ->. rewrite (loop_body_Datagram _ _ _ _ C R).
    now rewrite (dispatch_handler_None (received rest w) _ _ m h a' D L E). }
  assert (T : ∀ ps, rv = Some ps → tx (snd (loop_body w))
    = tx w ++ transmitted (address m) ps (fst remote_addr, _response_port w)).
  { intros ps ->. now apply (loop_body_reply_tx w data remote_addr rest m h ps a'). }
  repeat split.
  - exact N.
  - intros ps ->. rewrite (loop_body_Datagram _ _ _ _ C R).
    now rewrite (dispatch_handler_Some (received rest w) _ _ m h ps a' D L E).
  - intros X. destruct rv as [ps|].
    + exists ps. split; [reflexivity|]. intros Z. apply X.
      rewrite (T ps eq_refl), Z. apply app_nil_r.
    + exfalso. apply X. now rewrite (N eq_refl).
  - intros (ps & -> & X) Y. apply X.
    rewrite (T ps eq_refl) in Y.
    apply (app_inv_head (tx w)). now rewrite app_nil_r.
  - intros -> dgram B S. rewrite (T [] eq_refl). unfold transmitted. simpl.
    now rewrite B, S.
Qed.

Lemma reply_iff_result_not_None_witness :
  loop_body Bench.quiet_batch
  = (Return tt, set_app ["quiet"%string] (received [] Bench.quiet_batch))
  ∧ tx (snd (loop_body Bench.ping_batch))
    = tx Bench.ping_batch ++ [(Bench.dgram_of "/ping" [], ("1.2.3.4"%string, 11001))].
Proof.
  split.
  - refine (proj1 (reply_iff_result_not_None Bench.quiet_batch
              (Bench.dgram_of "/quiet" []) Bench.client [] (mkMessage "/quiet" [])
              (Bench.answers "quiet" None) None ["quiet"%string] _ _ _ _ _) _);
      vm_compute; reflexivity.
  - refine (proj2 (proj2 (proj2 (reply_iff_result_not_None Bench.ping_batch
              (Bench.dgram_of "/ping" []) Bench.client [] (mkMessage "/ping" [])
              (Bench.answers "ping" (Some [])) (Some []) ["ping"%string] _ _ _ _ _)))
              _ (Bench.dgram_of "/ping" []) _ _);
      vm_compute; reflexivity.
Defined.

(** C7: registering [h1] and then [h2] for one address leaves the world
    that registering [h2] alone leaves, returns normally and logs nothing;
    the registry holds [h2] for the address, and a message for the address
    has the effect of [h2] on the application, [h1] not being called. *)
Theorem last_handler_wins {App : Type} `{Codec} `{Sockets}
    (w : World App) addr h1 h2 :
  (add_handler addr h1 ;; add_handler addr h2) w = add_handler addr h2 w
  ∧ fst ((add_handler addr h1 ;; add_handler addr h2) w) = Return tt
  ∧ logged (snd ((add_handler addr h1 ;; add_handler addr h2) w)) = logged w
  ∧ _callbacks (snd ((add_handler addr h1 ;; add_handler addr h2) w)) !! addr
    = Some h2
  ∧ (∀ data remote_addr m,
       OscMessage data = Return m → address m = addr →
       app_state (snd (dispatch data remote_addr
                         (snd ((add_handler addr h1 ;; add_handler addr h2) w))))
       = snd (h2 (params m) (app_state w))).
Proof.
  assert (E : (add_handler addr h1 ;; add_handler addr h2) w = add_handler addr h2 w).
  { unfold bind, add_handler, set_callbacks. simpl. now rewrite insert_insert_eq. }
  rewrite E. repeat split.
  - simpl. apply lookup_insert_eq.
  - intros data remote_addr m D <-.
    rewrite (dispatch_app_state _ _ _ m h2 D); [reflexivity|].
    simpl. apply lookup_insert_eq.
Qed.

Lemma last_handler_wins_witness :
  app_state (snd (dispatch (Bench.dgram_of "/test" []) Bench.client
               (snd ((add_handler "/test" (Bench.answers "first" None) ;;
                      add_handler "/test" (Bench.answers "second" None))
                       Bench.server))))
  = ["second"%string].
Proof.
  refine (proj2 (proj2 (proj2 (proj2 (last_handler_wins Bench.server "/test"
            (Bench.answers "first" None) (Bench.answers "second" None)))))
            (Bench.dgram_of "/test" []) Bench.client (mkMessage "/test" []) _ _);
    reflexivity.
Defined.

(** C10: no method changes the local address, the default remote address
    or the response port set by the constructor; and [send], [process] and
    [shutdown] leave the registry of handlers as it is. *)
Theorem configuration_and_registry_are_kept {App : Type} `{Codec} `{Sockets}
    (w : World App) addr h params remote_addr :
  config (snd (add_handler addr h w)) = config w
  ∧ config (snd (clear_handlers w)) = config w
  ∧ config (snd (send addr params remote_addr w)) = config w
  ∧ config (snd (process w)) = config w
  ∧ config (snd (shutdown w)) = config w
  ∧ _callbacks (snd (send addr params remote_addr w)) = _callbacks w
  ∧ _callbacks (snd (process w)) = _callbacks w
  ∧ _callbacks (snd (shutdown w)) = _callbacks w.
Proof.
  repeat split.
  - now apply (preserves_send config).
  - now apply (preserves_process config).
  - now apply (preserves_send _callbacks).
  - now apply (preserves_process _callbacks).
Qed.

(** * Further properties *)

(** ** Relations every round keeps *)

Section Rounds.

Context {App : Type} `{Codec} `{Sockets}.

Variable R : World App → World App → Prop.

Hypothesis R_refl : ∀ w, R w w.
Hypothesis R_trans : ∀ w1 w2 w3, R w1 w2 → R w2 w3 → R w1 w3.
Hypothesis R_log : ∀ l w, R w (logging l w).
Hypothesis R_round : keeps R loop_body.

Lemma keeps_while_True gas : keeps R (while_True gas loop_body).
Proof.
  induction gas as [|gas IH]; simpl; [exact R_round|].
  intros w. unfold bind. pose proof (R_round w) as E.
  destruct (loop_body w) as [[[]|e] w1]; simpl in *; [|exact E].
  exact (R_trans _ _ _ E (IH w1)).
Qed.

Lemma keeps_process_except e : keeps R (process_except e).
Proof.
  intros w. unfold process_except.
  destruct (isinstance_socket_error e);
    [destruct (would_block e); [apply R_refl|apply R_log]|].
  destruct (isinstance_Exception e); [apply R_log|apply R_refl].
Qed.

Lemma keeps_process_rounds : keeps R process.
Proof.
  intros w. rewrite (process_unfold w (length (rx w))); [|lia].
  pose proof (keeps_while_True (length (rx w)) w) as E.
  destruct (while_True (length (rx w)) loop_body w) as [[a|e] w']; simpl in *;
    [exact E|].
  exact (R_trans _ _ _ E (keeps_process_except e w')).
Qed.

End Rounds.

(** ** Relations every step keeps

    A reflexive and transitive relation between the world before and the
    world after, kept by each primitive step, is kept by the methods. *)

Section Steps.

Context {App : Type} `{Codec} `{Sockets}.

Variable R : World App → World App → Prop.

Hypothesis R_refl : ∀ w, R w w.
Hypothesis R_trans : ∀ w1 w2 w3, R w1 w2 → R w2 w3 → R w1 w3.

Lemma keeps_ret {A} (a : A) : keeps R (ret a).
Proof. intros w. apply R_refl. Qed.

Lemma keeps_lift {A} (r : result A) : keeps R (lift r).
Proof. intros w. apply R_refl. Qed.

Lemma keeps_gets {A} (g : World App → A) : keeps R (gets g).
Proof. intros w. apply R_refl. Qed.

Lemma keeps_bind {A B} (m : Py App A) (k : A → Py App B) :
  keeps R m → (∀ a, keeps R (k a)) → keeps R (bind m k).
Proof.
  intros Hm Hk w. specialize (Hm w). unfold bind.
  destruct (m w) as [[a|e] w']; simpl in *; [|exact Hm].
  exact (R_trans _ _ _ Hm (Hk a w')).
Qed.

Lemma keeps_try_except {A} (body : Py App A) clauses :
  keeps R body →
  Forall (λ c, ∀ e, keeps R (snd c e)) clauses →
  keeps R (try_except body clauses).
Proof.
  intros Hb Hc w. specialize (Hb w). unfold try_except.
  destruct (body w) as [[a|e] w']; simpl in *; [exact Hb|].
  assert (Hh : ∀ h, first_clause e clauses = Some h → keeps R h).
  { clear Hb. induction Hc as [|[cls h'] rest Hh' _ IH]; simpl; [discriminate|].
    intros h. destruct (cls e); [|exact (IH h)].
    intros [= <-]. apply Hh'. }
  destruct (first_clause e clauses) as [h|]; simpl; [|exact Hb].
  exact (R_trans _ _ _ Hb (Hh h eq_refl w')).
Qed.

Hypothesis R_log : ∀ l w, R w (logging l w).
Hypothesis R_build : ∀ w, R w (set_build_calls (S (build_calls w)) w).
Hypothesis R_tx : ∀ x w, closed w = false → R w (set_tx (tx w ++ [x]) w).

Lemma keeps_logger_info l : keeps R (logger_info l).
Proof. intros w. apply R_log. Qed.

Lemma keeps_sendto dgram addr : keeps R (sendto dgram addr).
Proof.
  intros w. unfold sendto. destruct (closed w) eqn:C; [apply R_refl|].
  destruct (sendto_fails dgram addr); [apply R_refl|]. now apply R_tx.
Qed.

Lemma keeps_send address params remote_addr :
  keeps R (send address params remote_addr).
Proof.
  unfold send. apply keeps_bind; [apply keeps_lift|]. intros b.
  apply keeps_try_except.
  - apply keeps_bind; [intros w; apply R_build|]. intros dgram.
    apply keeps_bind; [|intros a; apply keeps_sendto].
    destruct remote_addr; [apply keeps_ret|apply keeps_gets].
  - repeat constructor. intros e. apply keeps_logger_info.
Qed.

Hypothesis R_app : ∀ a w, closed w = false → R w (set_app a w).
Hypothesis R_rx : ∀ ev q w, closed w = false → rx w = ev :: q → R w (set_rx q w).

(** A datagram is dispatched on an open socket, and leaves it open. *)
Lemma keeps_dispatch data remote_addr w :
  closed w = false → R w (snd (dispatch data remote_addr w)).
Proof.
  intros C. unfold dispatch, try_except, bind, lift, gets, call.
  destruct (OscMessage data) as [m|e]; simpl.
  - destruct (_callbacks w !! address m) as [h|]; simpl; [|apply R_log].
    destruct (h (params m) (app_state w)) as [[[rv|]|e] a']; simpl.
    + pose proof (keeps_send (address m) rv
        (Some (fst remote_addr, _response_port w)) (set_app a' w)) as S.
      destruct (send (address m) rv (Some (fst remote_addr, _response_port w))
                  (set_app a' w)) as [[[]|e] w2]; simpl in *.
      * exact (R_trans _ _ _ (R_app a' w C) S).
      * destruct (isinstance_ParseError e); simpl;
          eauto using R_trans, R_app, R_log.
    + now apply R_app.
    + destruct (isinstance_ParseError e); simpl;
        eauto using R_trans, R_app, R_log.
  - destruct (isinstance_ParseError e); simpl; [apply R_log|apply R_refl].
Qed.

Lemma keeps_loop_body : keeps R loop_body.
Proof.
  intros w. unfold loop_body, bind, recvfrom.
  destruct (closed w) eqn:C; [apply R_refl|].
  destruct (rx w) as [|[data a|errno] q] eqn:Q; simpl;
    [apply R_refl| |now apply (R_rx (RecvError errno))].
  eapply R_trans; [exact (R_rx _ _ _ C Q)|].
  now apply keeps_dispatch.
Qed.

Lemma keeps_process : keeps R process.
Proof.
  apply keeps_process_rounds; auto. exact keeps_loop_body.
Qed.

Hypothesis R_callbacks : ∀ c w, R w (set_callbacks c w).
Hypothesis R_closed : ∀ w, R w (set_closed true w).
Hypothesis R_deliver : ∀ evs w, R w (deliver evs w).

Lemma keeps_perform a w : R w (perform a w).
Proof.
  destruct a; simpl; [apply R_callbacks|apply R_callbacks|apply keeps_send
                     |apply keeps_process|apply R_closed|apply R_deliver].
Qed.

Lemma keeps_history acts : ∀ w, R w (history acts w).
Proof.
  induction acts as [|a acts IH]; intros w; simpl; [apply R_refl|].
  exact (R_trans _ _ _ (keeps_perform a w) (IH (perform a w))).
Qed.

End Steps.

(** ** Over the life of a server *)

(** X1: whatever is called and whatever arrives, in whatever order, the
    lines logged and the datagrams sent so far stay as they are, with new
    ones only added behind them; the count of builds does not decrease;
    and the addresses and the port fixed at construction do not change. *)
Theorem history_is_append_only {App : Type} `{Codec} `{Sockets}
    (w : World App) (acts : list (action App)) :
  config (history acts w) = config w
  ∧ logged w `prefix_of` logged (history acts w)
  ∧ tx w `prefix_of` tx (history acts w)
  ∧ (build_calls w ≤ build_calls (history acts w))%nat.
Proof.
  apply (keeps_history
    (λ w w', config w' = config w
             ∧ logged w `prefix_of` logged w'
             ∧ tx w `prefix_of` tx w'
             ∧ (build_calls w ≤ build_calls w')%nat)).
  - intros w1. repeat split; reflexivity.
  - intros w1 w2 w3 (C1 & L1 & T1 & B1) (C2 & L2 & T2 & B2).
    repeat split; [congruence|by etrans|by etrans|lia].
  - intros l w1. repeat split; try reflexivity.
    simpl. apply prefix_app_r. reflexivity.
  - intros w1. repeat split; try reflexivity. simpl. lia.
  - intros x w1 _. repeat split; try reflexivity.
    simpl. apply prefix_app_r. reflexivity.
  - intros a w1 _. repeat split; reflexivity.
  - intros ev q w1 _ _. repeat split; reflexivity.
  - intros c w1. repeat split; reflexivity.
  - intros w1. repeat split; reflexivity.
  - intros evs w1. repeat split; reflexivity.
Qed.

(** X2: a server that was constructed keeps, through every call and every
    arrival after that, the local and remote addresses it was given; its
    response port is the port of the remote address, and the first line
    of its log is the line written by the constructor. *)
Theorem constructed_configuration_is_permanent {App : Type} `{Codec} `{Sockets}
    local_addr remote_addr (app0 : App) (w0 : World App) (acts : list (action App)) :
  __init__ local_addr remote_addr app0 = Return w0 →
  bind_fails local_addr = None
  ∧ _local_addr (history acts w0) = local_addr
  ∧ _remote_addr (history acts w0) = remote_addr
  ∧ _response_port (history acts w0) = snd (_remote_addr (history acts w0))
  ∧ [LogStarting local_addr (snd remote_addr)] `prefix_of` logged (history acts w0).
Proof.
  unfold __init__. destruct (bind_fails local_addr); [discriminate|].
  intros [= <-].
  match goal with |- context [history acts ?w] => set (w0 := w) end.
  assert (K : config (history acts w0) = config w0
              ∧ logged w0 `prefix_of` logged (history acts w0)).
  { apply (keeps_history
      (λ w w', config w' = config w ∧ logged w `prefix_of` logged w')).
    - intros w1. split; reflexivity.
    - intros w1 w2 w3 [C1 L1] [C2 L2]. split; [congruence|by etrans].
    - intros l w1. split; [reflexivity|]. simpl. apply prefix_app_r. reflexivity.
    - intros w1. split; reflexivity.
    - intros x w1 _. split; reflexivity.
    - intros a w1 _. split; reflexivity.
    - intros ev q w1 _ _. split; reflexivity.
    - intros c w1. split; reflexivity.
    - intros w1. split; reflexivity.
    - intros evs w1. split; reflexivity. }
  destruct K as [C L]. unfold config in C. simpl in C, L.
  injection C as C1 C2 C3. rewrite C1, C2, C3. now repeat split.
Qed.

Lemma constructed_configuration_is_permanent_witness :
  _remote_addr (history Bench.life Bench.server) = ("127.0.0.1"%string, 11001).
Proof.
  refine (proj1 (proj2 (proj2 (constructed_configuration_is_permanent
            ("0.0.0.0"%string, 11000) ("127.0.0.1"%string, 11001) []
            Bench.server Bench.life _)))).
  reflexivity.
Defined.

(** X3: after [shutdown] nothing is sent and no handler runs, whatever is
    called and whatever arrives; the socket stays closed.  [process] on
    the closed socket takes nothing off the queue and returns normally,
    with one line of log for the [EBADF] error (none where [EBADF] is the
    would-block errno). *)
Theorem shutdown_is_terminal {App : Type} `{Codec} `{Sockets}
    (w : World App) (acts : list (action App)) :
  closed w = true →
  closed (history acts w) = true
  ∧ tx (history acts w) = tx w
  ∧ app_state (history acts w) = app_state w
  ∧ process w
    = (Return tt,
       if (EBADF =? EAGAIN) || (EBADF =? EWOULDBLOCK) then w
       else logging (LogSocketError (socket_error EBADF)) w).
Proof.
  intros C.
  assert (K : closed w = true →
    closed (history acts w) = true ∧ tx (history acts w) = tx w
    ∧ app_state (history acts w) = app_state w).
  { apply (keeps_history
      (λ w w', closed w = true →
               closed w' = true ∧ tx w' = tx w ∧ app_state w' = app_state w)).
    - intros w1 C1. now repeat split.
    - intros w1 w2 w3 K1 K2 C1. destruct (K1 C1) as (C2 & T1 & A1).
      destruct (K2 C2) as (C3 & T2 & A2). repeat split; congruence.
    - intros l w1 C1. now repeat split.
    - intros w1 C1. now repeat split.
    - intros x w1 O C1. congruence.
    - intros a w1 O C1. congruence.
    - intros ev q w1 O _ C1. congruence.
    - intros c w1 C1. now repeat split.
    - intros w1 C1. now repeat split.
    - intros evs w1 C1. now repeat split. }
  destruct (K C) as (K1 & K2 & K3). repeat split; try assumption.
  rewrite (process_round_raises w (socket_error EBADF) w).
  - unfold process_except, would_block.
    cbn [isinstance_socket_error errno_of].
    now destruct ((EBADF =? EAGAIN) || (EBADF =? EWOULDBLOCK)).
  - apply loop_body_recvfrom_raises. unfold recvfrom. now rewrite C.
Qed.

Lemma shutdown_is_terminal_witness :
  tx (history [Process; Send "/hello" [VStr "world"] None]
        (Bench.after shutdown Bench.test_batch))
  = tx (Bench.after shutdown Bench.test_batch).
Proof.
  refine (proj1 (proj2 (shutdown_is_terminal
            (Bench.after shutdown Bench.test_batch)
            [Process; Send "/hello" [VStr "world"] None] _))).
  reflexivity.
Defined.

(** ** More on the rounds *)

Section MoreRounds.

Context {App : Type} `{Codec} `{Sockets}.

Implicit Types (w : World App) (h : handler App).

(** On an open socket a round takes the event in front off the queue,
    whatever happens to it. *)
Lemma loop_body_pop w ev rest :
  closed w = false → rx w = ev :: rest → rx (snd (loop_body w)) = rest.
Proof.
  intros C Q. unfold loop_body, bind, recvfrom. rewrite C, Q.
  destruct ev as [data a|errno]; [|reflexivity]. simpl.
  pose proof (dispatch_rx data a (set_rx rest w)) as R.
  now destruct (dispatch data a (set_rx rest w)) as [[[]|e] w1].
Qed.

Lemma process_empty w :
  closed w = false → rx w = [] → process w = (Return tt, w).
Proof.
  intros C Q.
  rewrite (process_round_raises w (socket_error EWOULDBLOCK) w).
  - unfold process_except, would_block.
    cbn [isinstance_socket_error errno_of].
    now rewrite Z.eqb_refl, orb_true_r.
  - apply loop_body_recvfrom_raises. unfold recvfrom. now rewrite C, Q.
Qed.

Lemma process_rx_suffix w : rx (snd (process w)) `suffix_of` rx w.
Proof.
  apply (keeps_process (λ w w', rx w' `suffix_of` rx w)); try by intros.
  - intros w1 w2 w3 S1 S2. by etrans.
  - intros ev q w1 _ Q. simpl. rewrite Q. by apply suffix_cons_r.
Qed.

Lemma transmitted_length address params dest :
  (length (transmitted address params dest) ≤ 1)%nat.
Proof.
  unfold transmitted.
  destruct (add_args (OscMessageBuilder address) params) as [b|e]; [|simpl; lia].
  destruct (build b) as [dgram|e]; [|simpl; lia].
  destruct (sendto_fails dgram dest); simpl; lia.
Qed.

(** What the dispatch of one datagram sends: at most one datagram, to the
    host it came from, at the response port. *)
Lemma dispatch_tx w data remote_addr :
  closed w = false →
  ∃ new, tx (snd (dispatch data remote_addr w)) = tx w ++ new
         ∧ (length new ≤ 1)%nat
         ∧ ∀ x, x ∈ new → snd x = (fst remote_addr, _response_port w).
Proof.
  intros C.
  assert (N : ∀ w', tx w' = tx w →
    ∃ new, tx w' = tx w ++ new ∧ (length new ≤ 1)%nat
           ∧ ∀ x, x ∈ new → snd x = (fst remote_addr, _response_port w)).
  { intros w' E. exists []. rewrite app_nil_r. repeat split; [exact E|simpl; lia|].
    now intros x ?%elem_of_nil. }
  destruct (OscMessage data) as [m|e] eqn:D.
  - destruct (_callbacks w !! address m) as [h|] eqn:L.
    + destruct (h (params m) (app_state w)) as [[[rv|]|e] a'] eqn:E.
      * rewrite (dispatch_handler_Some _ _ _ m h rv a' D L E).
        rewrite try_except_ParseError_tx, send_tx by exact C.
        exists (transmitted (address m) rv (fst remote_addr, _response_port w)).
        repeat split; [apply transmitted_length|]. apply transmitted_dest.
      * rewrite (dispatch_handler_None _ _ _ m h a' D L E). now apply N.
      * rewrite (dispatch_handler_raises _ _ _ m h e a' D L E).
        destruct (isinstance_ParseError e); now apply N.
    + rewrite (dispatch_unknown _ _ _ m D L). now apply N.
  - rewrite (dispatch_decode_raises _ _ _ _ D).
    destruct (isinstance_ParseError e); now apply N.
Qed.

(** [send], by its outcome: [add_arg] raised; a [BuildError] was caught
    and logged; another exception passed; or the datagram went out. *)
Lemma send_cases (P : result unit * World App → Prop) w address params remote_addr :
  (∀ e, add_args (OscMessageBuilder address) params = Raise e → P (Raise e, w)) →
  (∀ e, isinstance_BuildError e = true →
     P (Return tt, logging (LogBuildError e)
                     (set_build_calls (S (build_calls w)) w))) →
  (∀ e, isinstance_BuildError e = false →
     P (Raise e, set_build_calls (S (build_calls w)) w)) →
  (∀ b dgram, add_args (OscMessageBuilder address) params = Return b →
     build b = Return dgram → closed w = false →
     sendto_fails dgram (destination remote_addr w) = None →
     P (Return tt, set_tx (tx w ++ [(dgram, destination remote_addr w)])
                     (set_build_calls (S (build_calls w)) w))) →
  P (send address params remote_addr w).
Proof.
  intros P1 P2 P3 P4.
  destruct (add_args (OscMessageBuilder address) params) as [b|e] eqn:A.
  - destruct (build b) as [dgram|e] eqn:B.
    + destruct (closed w) eqn:C.
      * replace (send address params remote_addr w)
          with (@Raise unit (socket_error EBADF),
                set_build_calls (S (build_calls w)) w); [now apply P3|].
        unfold send, bind, lift, try_except, call_build, sendto.
        rewrite A, B. destruct remote_addr; simpl; now rewrite C.
      * destruct (sendto_fails dgram (destination remote_addr w)) as [e|] eqn:Sf.
        -- replace (send address params remote_addr w)
             with (if isinstance_BuildError e
                   then (Return tt, logging (LogBuildError e)
                                      (set_build_calls (S (build_calls w)) w))
                   else (Raise e, set_build_calls (S (build_calls w)) w)).
           ++ destruct (isinstance_BuildError e) eqn:I; [now apply P2|now apply P3].
           ++ unfold send, bind, lift, try_except, call_build, sendto.
              rewrite A, B. destruct remote_addr; simpl in *; rewrite C, Sf; simpl;
                now destruct (isinstance_BuildError e).
        -- rewrite (send_transmits _ _ _ _ _ _ A B C Sf). now apply (P4 b dgram).
    + rewrite (send_build_raises _ _ _ _ _ _ A B).
      destruct (isinstance_BuildError e) eqn:I; [now apply P2|now apply P3].
  - rewrite (send_add_arg_raises _ _ _ _ _ A). now apply P1.
Qed.

(** [send] does not look at the registry. *)
Lemma send_with_callbacks c w address params remote_addr :
  send address params remote_addr (set_callbacks c w)
  = with_callbacks c (send address params remote_addr w).
Proof.
  unfold with_callbacks, send, bind, lift, try_except, call_build, sendto, gets, ret.
  destruct (add_args (OscMessageBuilder address) params) as [b|e]; [|reflexivity].
  destruct (build b) as [dgram|e]; simpl.
  - destruct remote_addr as [a|]; simpl; destruct (closed w); simpl;
      try reflexivity.
    + destruct (sendto_fails dgram a) as [e|]; simpl; [|reflexivity].
      now destruct (isinstance_BuildError e).
    + destruct (sendto_fails dgram (_remote_addr w)) as [e|]; simpl; [|reflexivity].
      now destruct (isinstance_BuildError e).
  - now destruct (isinstance_BuildError e).
Qed.

(** [dispatch] looks at the registry under the address of the message
    only. *)
Lemma dispatch_with_callbacks c w data remote_addr :
  (∀ m, OscMessage data = Return m → c !! address m = _callbacks w !! address m) →
  dispatch data remote_addr (set_callbacks c w)
  = with_callbacks c (dispatch data remote_addr w).
Proof.
  intros L.
  destruct (OscMessage data) as [m|e] eqn:D.
  - specialize (L m eq_refl).
    destruct (_callbacks w !! address m) as [h|] eqn:Lw.
    + destruct (h (params m) (app_state w)) as [[[rv|]|e] a'] eqn:E.
      * rewrite (dispatch_handler_Some (set_callbacks c w) _ _ m h rv a' D L E).
        rewrite (dispatch_handler_Some w _ _ m h rv a' D Lw E).
        unfold try_except.
        change (set_app a' (set_callbacks c w)) with (set_callbacks c (set_app a' w)).
        cbn [_response_port set_callbacks]. rewrite send_with_callbacks.
        unfold with_callbacks.
        destruct (send (address m) rv (Some (fst remote_addr, _response_port w))
                    (set_app a' w)) as [[[]|e] w2]; simpl; [reflexivity|].
        now destruct (isinstance_ParseError e).
      * rewrite (dispatch_handler_None (set_callbacks c w) _ _ m h a' D L E).
        now rewrite (dispatch_handler_None w _ _ m h a' D Lw E).
      * rewrite (dispatch_handler_raises (set_callbacks c w) _ _ m h e a' D L E).
        rewrite (dispatch_handler_raises w _ _ m h e a' D Lw E).
        now destruct (isinstance_ParseError e).
    + rewrite (dispatch_unknown (set_callbacks c w) _ _ m D L).
      now rewrite (dispatch_unknown w _ _ m D Lw).
  - rewrite !(dispatch_decode_raises _ _ _ _ D).
    now destruct (isinstance_ParseError e).
Qed.

End MoreRounds.

(** ** What [process] and [send] take and give *)

(** X4: [process] only takes events off the front of the queue, and on an
    open socket with something queued it takes at least the first one,
    also when its handler raises: the next [process] does not see it
    again. *)
Theorem process_takes_from_the_front {App : Type} `{Codec} `{Sockets}
    (w : World App) :
  rx (snd (process w)) `suffix_of` rx w
  ∧ (∀ ev rest, closed w = false → rx w = ev :: rest →
       rx (snd (process w)) `suffix_of` rest).
Proof.
  split; [apply process_rx_suffix|]. intros ev rest C Q.
  pose proof (loop_body_pop w ev rest C Q) as P.
  destruct (loop_body w) as [[[]|e] w1] eqn:E; simpl in P; subst rest.
  - rewrite (process_round _ _ E). apply process_rx_suffix.
  - rewrite (process_round_raises _ _ _ E). unfold process_except.
    destruct (isinstance_socket_error e);
      [destruct (would_block e); reflexivity|].
    destruct (isinstance_Exception e); reflexivity.
Qed.

Lemma process_takes_from_the_front_witness :
  rx (snd (process Bench.fault_batch)) `suffix_of` [Bench.from_client "/test" []].
Proof.
  refine (proj2 (process_takes_from_the_front Bench.fault_batch)
            (Bench.from_client "/boom" []) [Bench.from_client "/test" []] _ _);
    reflexivity.
Defined.

(** X5: the datagrams [process] sends are added behind those sent before,
    at most one for each event it took off the queue; each goes to the
    response port, at a host that a datagram of the queue came from. *)
Theorem process_replies_once_per_datagram {App : Type} `{Codec} `{Sockets}
    (w : World App) :
  ∃ new,
    tx (snd (process w)) = tx w ++ new
    ∧ (length new + length (rx (snd (process w))) ≤ length (rx w))%nat
    ∧ ∀ dgram host port, (dgram, (host, port)) ∈ new →
        port = _response_port w ∧ ∃ data p, Datagram data (host, p) ∈ rx w.
Proof.
  pose (R := λ w w' : World App,
    _response_port w' = _response_port w
    ∧ rx w' `suffix_of` rx w
    ∧ ∃ new, tx w' = tx w ++ new
        ∧ (length new + length (rx w') ≤ length (rx w))%nat
        ∧ ∀ dgram host port, (dgram, (host, port)) ∈ new →
            port = _response_port w ∧ ∃ data p, Datagram data (host, p) ∈ rx w).
  assert (R_same : ∀ w w', _response_port w' = _response_port w →
            rx w' `suffix_of` rx w → tx w' = tx w → R w w').
  { intros w1 w2 P S T. split; [exact P|]. split; [exact S|].
    exists []. rewrite app_nil_r. split; [exact T|]. split.
    - simpl. apply suffix_length in S. lia.
    - now intros dgram host port ?%elem_of_nil. }
  assert (K : R w (snd (process w))); [|exact (proj2 (proj2 K))].
  apply keeps_process_rounds.
  - intros w1. now apply R_same.
  - intros w1 w2 w3 (P1 & S1 & n1 & T1 & L1 & D1) (P2 & S2 & n2 & T2 & L2 & D2).
    split; [congruence|]. split; [by etrans|].
    exists (n1 ++ n2). rewrite T2, T1, app_assoc, length_app.
    split; [reflexivity|]. split; [lia|].
    intros dgram host port [I|I]%elem_of_app; [exact (D1 _ _ _ I)|].
    destruct (D2 _ _ _ I) as (-> & data & p & I2). split; [exact P1|].
    exists data, p. destruct S1 as [k ->]. apply elem_of_app. now right.
  - intros l w1. now apply R_same.
  - intros w1. unfold loop_body, bind, recvfrom.
    destruct (closed w1) eqn:C; [now apply R_same|].
    destruct (rx w1) as [|[data a|errno] q] eqn:Q; simpl.
    + now apply R_same.
    + destruct (dispatch_tx (set_rx q w1) data a C) as (new & T & L & D).
      pose proof (dispatch_rx data a (set_rx q w1)) as X.
      pose proof (preserves_dispatch _response_port (λ _ _, eq_refl)
                    (λ _ _, eq_refl) (λ _ _, eq_refl) (λ _ _, eq_refl)
                    data a (set_rx q w1)) as P.
      destruct (dispatch data a (set_rx q w1)) as [r w2]. simpl in *.
      assert (G : R w1 w2); [|now destruct r as [[]|e]].
      split; [exact P|]. rewrite X, Q. split; [by apply suffix_cons_r|].
      exists new. split; [exact T|]. split; [simpl; lia|].
      intros dgram host port I. apply D in I. simpl in I.
      injection I as -> ->. split; [reflexivity|].
      exists data, (snd a). destruct a. apply list_elem_of_here.
    + apply R_same; try reflexivity. simpl. rewrite Q. by apply suffix_cons_r.
Qed.

(** X6: one call of [send] sends at most one datagram, to the destination
    given (the default remote address without one), or writes at most one
    line of log, never both; when it raises it has done neither.  It
    calls [build] at most once and touches neither the queue, the
    registry nor the application. *)
Theorem send_footprint {App : Type} `{Codec} `{Sockets}
    (w : World App) addr params remote_addr :
  ∃ new_tx new_log,
    tx (snd (send addr params remote_addr w)) = tx w ++ new_tx
    ∧ logged (snd (send addr params remote_addr w)) = logged w ++ new_log
    ∧ (length new_tx + length new_log ≤ 1)%nat
    ∧ (∀ x, x ∈ new_tx → snd x = destination remote_addr w)
    ∧ (∀ e, fst (send addr params remote_addr w) = Raise e →
         new_tx = [] ∧ new_log = [])
    ∧ (build_calls (snd (send addr params remote_addr w)) ≤ S (build_calls w))%nat
    ∧ rx (snd (send addr params remote_addr w)) = rx w
    ∧ _callbacks (snd (send addr params remote_addr w)) = _callbacks w
    ∧ app_state (snd (send addr params remote_addr w)) = app_state w.
Proof.
  apply (send_cases (λ r, ∃ new_tx new_log,
    tx (snd r) = tx w ++ new_tx
    ∧ logged (snd r) = logged w ++ new_log
    ∧ (length new_tx + length new_log ≤ 1)%nat
    ∧ (∀ x, x ∈ new_tx → snd x = destination remote_addr w)
    ∧ (∀ e, fst r = Raise e → new_tx = [] ∧ new_log = [])
    ∧ (build_calls (snd r) ≤ S (build_calls w))%nat
    ∧ rx (snd r) = rx w
    ∧ _callbacks (snd r) = _callbacks w
    ∧ app_state (snd r) = app_state w)).
  - intros e _. exists [], []. simpl. rewrite !app_nil_r.
    do 3 (split; [reflexivity || lia|]). split; [now intros x ?%elem_of_nil|].
    split; [done|]. split; [lia|done].
  - intros e _. exists [], [LogBuildError e]. simpl. rewrite !app_nil_r.
    do 3 (split; [reflexivity || lia|]). split; [now intros x ?%elem_of_nil|].
    split; [discriminate|]. split; [lia|done].
  - intros e _. exists [], []. simpl. rewrite !app_nil_r.
    do 3 (split; [reflexivity || lia|]). split; [now intros x ?%elem_of_nil|].
    split; [done|]. split; [lia|done].
  - intros b dgram _ _ _ _. exists [(dgram, destination remote_addr w)], [].
    simpl. rewrite !app_nil_r.
    do 3 (split; [reflexivity || lia|]).
    split; [now intros x ->%list_elem_of_singleton|].
    split; [discriminate|]. split; [lia|done].
Qed.

(** ** Faults in a round *)

(** X7: what [process] does with an exception raised by a handler goes by
    its class.  A [ParseError] is logged as a parse error and the drain
    goes on.  A socket error ends the drain: silently on the would-block
    errno, with a "socket error" line otherwise.  Any other [Exception]
    ends the drain with an "error handling message" line.  An exception
    outside [Exception] leaves [process].  In each case the datagram is
    off the queue and what the handler did to the application stays. *)
Theorem handler_exception_by_class {App : Type} `{Codec} `{Sockets}
    (w0 w : World App) data remote_addr rest m h e a' :
  drains w0 w →
  closed w = false →
  rx w = Datagram data remote_addr :: rest →
  OscMessage data = Return m →
  _callbacks w !! address m = Some h →
  h (params m) (app_state w) = (Raise e, a') →
  match e with
  | ParseError =>
      process w0
      = process (logging (LogParseError ParseError) (set_app a' (received rest w)))
  | socket_error errno =>
      process w0
      = (Return tt,
         if (errno =? EAGAIN) || (errno =? EWOULDBLOCK)
         then set_app a' (received rest w)
         else logging (LogSocketError e) (set_app a' (received rest w)))
  | BuildError | Exception_ _ =>
      process w0
      = (Return tt, logging (LogErrorHandlingMessage e) (set_app a' (received rest w)))
  | BaseException_ _ =>
      process w0 = (Raise e, set_app a' (received rest w))
  end.
Proof.
  intros Dr C Q D L E.
  destruct e as [| |errno|cls|cls];
    try (rewrite (handler_fault_ends_the_drain w0 w data remote_addr rest m h _ a'
                    Dr C Q D L E eq_refl); unfold process_except, would_block;
         cbn [isinstance_socket_error isinstance_Exception errno_of];
         try reflexivity).
  - rewrite (process_drains _ _ Dr). apply process_round.
    rewrite (loop_body_Datagram _ _ _ _ C Q).
    now rewrite (dispatch_handler_raises (received rest w) _ _ m h _ a' D L E).
  - now destruct ((errno =? EAGAIN) || (errno =? EWOULDBLOCK)).
Qed.

Lemma handler_exception_by_class_witness :
  process Bench.fault_batch
  = (Return tt,
     logging (LogErrorHandlingMessage (Exception_ "ValueError"))
       (set_app ["boom"%string]
          (received [Bench.from_client "/test" []] Bench.fault_batch))).
Proof.
  refine (handler_exception_by_class Bench.fault_batch Bench.fault_batch
            (Bench.dgram_of "/boom" []) Bench.client
            [Bench.from_client "/test" []] (mkMessage "/boom" [])
            (Bench.raises "boom" (Exception_ "ValueError"))
            (Exception_ "ValueError") ["boom"%string] _ _ _ _ _ _);
    try apply drains_here; vm_compute; reflexivity.
Defined.

(** X8: a reply that fails.  When [build] raises [BuildError] for the
    result of the handler, the round logs it and the drain goes on with
    the datagrams behind.  When [add_arg] raises another exception, the
    drain ends with an "error handling message" line; when the socket
    refuses the reply with a socket error, the drain ends as for any
    socket error, silently on the would-block errno. *)
Theorem reply_failure {App : Type} `{Codec} `{Sockets}
    (w0 w : World App) data remote_addr rest m h rv a' :
  drains w0 w →
  closed w = false →
  rx w = Datagram data remote_addr :: rest →
  OscMessage data = Return m →
  _callbacks w !! address m = Some h →
  h (params m) (app_state w) = (Return (Some rv), a') →
  (∀ b, add_args (OscMessageBuilder (address m)) rv = Return b →
     build b = Raise BuildError →
     process w0
     = process (logging (LogBuildError BuildError)
                  (set_build_calls (S (build_calls w))
                     (set_app a' (received rest w)))))
  ∧ (∀ cls, add_args (OscMessageBuilder (address m)) rv = Raise (Exception_ cls) →
       process w0
       = (Return tt, logging (LogErrorHandlingMessage (Exception_ cls))
                       (set_app a' (received rest w))))
  ∧ (∀ b dgram errno,
       add_args (OscMessageBuilder (address m)) rv = Return b →
       build b = Return dgram →
       sendto_fails dgram (fst remote_addr, _response_port w)
       = Some (socket_error errno) →
       process w0
       = (Return tt,
          if (errno =? EAGAIN) || (errno =? EWOULDBLOCK)
          then set_build_calls (S (build_calls w)) (set_app a' (received rest w))
          else logging (LogSocketError (socket_error errno))
                 (set_build_calls (S (build_calls w))
                    (set_app a' (received rest w))))).
Proof.
  intros Dr C Q D L E.
  assert (B : loop_body w
    = try_except (send (address m) rv (Some (fst remote_addr, _response_port w)))
        except_ParseError (set_app a' (received rest w))).
  { rewrite (loop_body_Datagram _ _ _ _ C Q).
    now rewrite (dispatch_handler_Some (received rest w) _ _ m h rv a' D L E). }
  rewrite (process_drains _ _ Dr). split; [|split].
  - intros b A Bd. apply process_round. rewrite B.
    apply try_except_Return.
    now rewrite (send_build_raises _ _ _ _ _ _ A Bd).
  - intros cls A. rewrite (process_round_raises w (Exception_ cls)
                             (set_app a' (received rest w))); [reflexivity|].
    rewrite B. apply try_except_uncaught; [|reflexivity].
    now apply send_add_arg_raises.
  - intros b dgram errno A Bd Sf.
    rewrite (process_round_raises w (socket_error errno)
               (set_build_calls (S (build_calls w)) (set_app a' (received rest w)))).
    + unfold process_except, would_block.
      cbn [isinstance_socket_error errno_of].
      now destruct ((errno =? EAGAIN) || (errno =? EWOULDBLOCK)).
    + rewrite B. apply try_except_uncaught; [|reflexivity].
      unfold send, bind, lift, try_except, call_build, sendto, ret.
      rewrite A, Bd. simpl. now rewrite C, Sf.
Qed.

Lemma reply_failure_witness :
  process Bench.bad_reply_batch
  = process (logging (LogBuildError BuildError)
       (set_build_calls 1
          (set_app ["bad"%string]
             (received [Bench.from_client "/test" []] Bench.bad_reply_batch))))
  ∧ process Bench.unsupported_reply_batch
    = (Return tt,
       logging (LogErrorHandlingMessage (Exception_ "ValueError"))
         (set_app ["odd"%string]
            (received [Bench.from_client "/test" []] Bench.unsupported_reply_batch))).
Proof.
  split.
  - refine (proj1 (reply_failure Bench.bad_reply_batch Bench.bad_reply_batch
              (Bench.dgram_of "/bad" []) Bench.client
              [Bench.from_client "/test" []] (mkMessage "/bad" [])
              (Bench.answers "bad" (Some [Bench.too_big])) [Bench.too_big]
              ["bad"%string] _ _ _ _ _ _)
              ("/bad"%string, [Bench.too_big]) _ _);
      try apply drains_here; vm_compute; reflexivity.
  - refine (proj1 (proj2 (reply_failure Bench.unsupported_reply_batch
              Bench.unsupported_reply_batch
              (Bench.dgram_of "/odd" []) Bench.client
              [Bench.from_client "/test" []] (mkMessage "/odd" [])
              (Bench.answers "odd" (Some [VObj "<object>"])) [VObj "<object>"]
              ["odd"%string] _ _ _ _ _ _))
              "ValueError"%string _);
      try apply drains_here; vm_compute; reflexivity.
Defined.

(** ** The registry *)

(** X9: with no handler registered, as after [clear_handlers], [process]
    on an open socket drains a queue of datagrams to the end, whether they
    decode or fail with [ParseError]: it returns normally with the queue
    empty and one line of log for each datagram, has sent nothing and has
    run no handler. *)
Theorem without_handlers_everything_is_drained {App : Type} `{Codec} `{Sockets}
    (w : World App) :
  closed w = false →
  _callbacks w = ∅ →
  Forall readable (rx w) →
  ∃ w', process w = (Return tt, w')
        ∧ rx w' = []
        ∧ tx w' = tx w
        ∧ app_state w' = app_state w
        ∧ length (logged w') = (length (logged w) + length (rx w))%nat.
Proof.
  remember (rx w) as q eqn:Q. revert w Q.
  induction q as [|ev q IH]; intros w Q C L F.
  - exists w. rewrite (process_empty w C (eq_sym Q)).
    split; [reflexivity|]. split; [now symmetry|].
    repeat split. simpl. lia.
  - apply Forall_cons in F as [Fe Fq].
    destruct ev as [data a|errno]; [|destruct Fe].
    assert (S1 : ∃ l, loop_body w = (Return tt, logging l (received q w))).
    { rewrite (loop_body_Datagram w data a q C (eq_sym Q)).
      unfold readable in Fe. destruct (OscMessage data) as [m|e] eqn:D.
      - eexists. apply (dispatch_unknown _ _ _ m D). simpl. rewrite L.
        apply lookup_empty.
      - subst e. eexists. now rewrite (dispatch_decode_raises _ _ _ _ D). }
    destruct S1 as [l S1]. rewrite (process_round _ _ S1).
    destruct (IH (logging l (received q w)) eq_refl C L Fq)
      as (w' & P & R1 & T1 & A1 & L1).
    exists w'. split; [exact P|]. split; [exact R1|]. split; [exact T1|].
    split; [exact A1|]. rewrite L1. simpl. rewrite length_app. simpl. lia.
Qed.

Lemma without_handlers_everything_is_drained_witness :
  ∃ w', process Bench.cleared_batch = (Return tt, w')
        ∧ rx w' = []
        ∧ tx w' = tx Bench.cleared_batch
        ∧ app_state w' = app_state Bench.cleared_batch
        ∧ length (logged w')
          = (length (logged Bench.cleared_batch) + length (rx Bench.cleared_batch))%nat.
Proof.
  apply (without_handlers_everything_is_drained Bench.cleared_batch).
  - reflexivity.
  - reflexivity.
  - repeat constructor.
Defined.

(** X10: handlers registered for two different addresses do not depend on
    the order of registration: both orders leave the same world, with each
    handler under its address. *)
Theorem handlers_of_distinct_addresses_commute {App : Type} `{Codec} `{Sockets}
    (w : World App) a1 a2 h1 h2 :
  a1 ≠ a2 →
  (add_handler a1 h1 ;; add_handler a2 h2) w
  = (add_handler a2 h2 ;; add_handler a1 h1) w
  ∧ _callbacks (snd ((add_handler a1 h1 ;; add_handler a2 h2) w)) !! a1 = Some h1
  ∧ _callbacks (snd ((add_handler a1 h1 ;; add_handler a2 h2) w)) !! a2 = Some h2.
Proof.
  intros N. unfold bind, add_handler, set_callbacks. simpl. split; [|split].
  - now rewrite insert_insert_ne.
  - rewrite lookup_insert_ne by done. apply lookup_insert_eq.
  - apply lookup_insert_eq.
Qed.

Lemma handlers_of_distinct_addresses_commute_witness :
  (add_handler "/a" (Bench.answers "a" None) ;;
   add_handler "/b" (Bench.answers "b" None)) Bench.server
  = (add_handler "/b" (Bench.answers "b" None) ;;
     add_handler "/a" (Bench.answers "a" None)) Bench.server.
Proof.
  refine (proj1 (handlers_of_distinct_addresses_commute Bench.server "/a" "/b"
            (Bench.answers "a" None) (Bench.answers "b" None) _)).
  discriminate.
Defined.

(** X11: registering a handler for an address changes nothing for a
    datagram whose message has another address, or that does not decode:
    its dispatch has the same result, sends and logs the same and does the
    same to the application as before the registration. *)
Theorem registration_leaves_other_addresses_alone {App : Type} `{Codec} `{Sockets}
    (w : World App) addr h data remote_addr :
  (∀ m, OscMessage data = Return m → address m ≠ addr) →
  dispatch data remote_addr (snd (add_handler addr h w))
  = with_callbacks (<[addr := h]> (_callbacks w)) (dispatch data remote_addr w)
  ∧ fst (dispatch data remote_addr (snd (add_handler addr h w)))
    = fst (dispatch data remote_addr w)
  ∧ tx (snd (dispatch data remote_addr (snd (add_handler addr h w))))
    = tx (snd (dispatch data remote_addr w))
  ∧ logged (snd (dispatch data remote_addr (snd (add_handler addr h w))))
    = logged (snd (dispatch data remote_addr w))
  ∧ app_state (snd (dispatch data remote_addr (snd (add_handler addr h w))))
    = app_state (snd (dispatch data remote_addr w)).
Proof.
  intros N.
  assert (E : dispatch data remote_addr (snd (add_handler addr h w))
    = with_callbacks (<[addr := h]> (_callbacks w)) (dispatch data remote_addr w)).
  { apply (dispatch_with_callbacks (<[addr := h]> (_callbacks w)) w).
    intros m D. apply lookup_insert_ne. intros ->. now apply (N m). }
  rewrite E. now repeat split.
Qed.

Lemma registration_leaves_other_addresses_alone_witness :
  tx (snd (dispatch (Bench.dgram_of "/test" []) Bench.client
             (snd (add_handler "/ping" (Bench.answers "other" None) Bench.registered))))
  = tx (snd (dispatch (Bench.dgram_of "/test" []) Bench.client Bench.registered)).
Proof.
  refine (proj1 (proj2 (proj2 (registration_leaves_other_addresses_alone
            Bench.registered "/ping" (Bench.answers "other" None)
            (Bench.dgram_of "/test" []) Bench.client _)))).
  intros m E. vm_compute in E. injection E as <-. discriminate.
Defined.
